(** * Temple Run game engine: a shallow embedding of [core/game_engine.py]

    The engine object of the Python program is modelled as a record that
    is passed explicitly through every method.  Python [int] values are
    [Z]; Python [float] values are idealised as exact rationals ([Q]), so
    rounding of binary floating point is not represented, and neither are
    infinities and NaN: [int] of a number always has a value, where the
    source's [int] raises on an infinite or undefined product.  The calls to
    [random] are modelled by a record of the values drawn during one
    frame, and the call to [time.time] by an argument of [reset_game].
    A method that can raise returns an [outcome], which records the
    engine object as the method left it in either case.

    The constants ([LANE_POSITIONS], [PLAYER_WIDTH], ...) are attributes
    that [__init__] assigns once and that no method reassigns; they are
    definitions here.

    The model describes the methods on an engine object all of whose
    attributes exist.  Two things in the source lie before that point and
    are not represented: the class [Obstacle] declares fields without a
    default after the inherited field [active], which has one, and
    [__init__] calls [reset_game] before it assigns the constants that
    [reset_game] reads. *)

From Stdlib Require Import ZArith QArith Qround String List Bool Lia Lqa.
Import ListNotations.

Local Open Scope Q_scope.

(** ** Python primitives *)

Module Py.

Inductive exn : Type :=
| IndexError.

Inductive result (A : Type) : Type :=
| Ok (a : A)
| Raise (e : exn).

Arguments Ok {A} a.
Arguments Raise {A} e.

(** [a < b] on numbers. *)
Definition ltb (a b : Q) : bool :=
  (Qnum a * QDen b <? Qnum b * QDen a)%Z.

(** [a >= b] on numbers. *)
Definition geb (a b : Q) : bool := Qle_bool b a.

(** [min(a, b)]: the first argument unless the second is smaller. *)
Definition min (a b : Q) : Q := if ltb b a then b else a.

(** [int(q)]: truncation towards zero. *)
Definition int (q : Q) : Z := Z.quot (Qnum q) (QDen q).

(** [q // 2]: floor division, the result is again a number. *)
Definition floordiv2 (q : Q) : Q := inject_Z (Qfloor (q / 2)).

(** [l[i]] with Python's negative indices and [IndexError]. *)
Definition index {A : Type} (l : list A) (i : Z) : result A :=
  let n := Z.of_nat (length l) in
  let j := if (i <? 0)%Z then (i + n)%Z else i in
  if ((0 <=? j) && (j <? n))%Z then
    match nth_error l (Z.to_nat j) with
    | Some v => Ok v
    | None => Raise IndexError
    end
  else Raise IndexError.

End Py.

Import Py.

(** ** Data model *)

Record Position : Type := mkPosition {
  pos_x : Q;
  pos_y : Q
}.

Record Player : Type := mkPlayer {
  p_position : Position;
  p_width : Q;
  p_height : Q;
  p_active : bool;
  lane : Z;
  jumping : bool;
  sliding : bool;
  jump_height : Q
}.

Record Obstacle : Type := mkObstacle {
  o_position : Position;
  o_width : Q;
  o_height : Q;
  o_active : bool;
  obstacle_type : string;
  o_lane : Z
}.

Record Coin : Type := mkCoin {
  c_position : Position;
  c_width : Q;
  c_height : Q;
  c_active : bool;
  collected : bool
}.

Record GameState : Type := mkGameState {
  score : Z;
  distance : Z;
  coins_collected : Z;
  lives : Z;
  speed_multiplier : Q;
  game_over : bool;
  paused : bool;
  high_score : Z
}.

Record GameEngine : Type := mkGameEngine {
  state : GameState;
  player : Player;
  obstacles : list Obstacle;
  coins : list Coin;
  last_update : Q;
  slide_timer : Q;
  jump_timer : Q
}.

(** How a call of a method ends: it returns, or an exception leaves it;
    the engine object is the one the caller sees afterwards. *)
Inductive outcome : Type :=
| Returns (self' : GameEngine)
| Raises (x : exn) (self' : GameEngine).

Definition engine_after (r : outcome) : GameEngine :=
  match r with
  | Returns e => e
  | Raises _ e => e
  end.

Definition and_then (r : outcome) (k : GameEngine -> outcome) : outcome :=
  match r with
  | Returns e => k e
  | Raises x e => Raises x e
  end.

Notation "e <- r ;; k" := (and_then r (fun e => k))
  (at level 61, r at next level, right associativity).

(** A rectangle [(x, y, w, h)]. *)
Definition Rect : Type := (Q * Q * Q * Q)%type.

(** ** Constants assigned by [__init__] *)

Definition LANE_POSITIONS : list Q := [150; 300; 450].
Definition LANE_WIDTH : Q := 100.
Definition PLAYER_HEIGHT : Q := 60.
Definition PLAYER_WIDTH : Q := 40.
Definition OBSTACLE_HEIGHT : Q := 60.
Definition OBSTACLE_WIDTH : Q := 50.
Definition COIN_SIZE : Q := 20.
Definition JUMP_HEIGHT : Q := 80.
Definition SLIDE_DURATION : Q := 1.
Definition OBSTACLE_SPAWN_RATE : Q := 2 # 100.
Definition COIN_SPAWN_RATE : Q := 3 # 100.

(** ** Field updates *)

Definition set_position_x (v : Q) (p : Position) : Position :=
  mkPosition v (pos_y p).

Definition add_position_y (v : Q) (p : Position) : Position :=
  mkPosition (pos_x p) (pos_y p + v).

Definition with_state (s : GameState) (e : GameEngine) : GameEngine :=
  mkGameEngine s (player e) (obstacles e) (coins e)
               (last_update e) (slide_timer e) (jump_timer e).

Definition with_player (p : Player) (e : GameEngine) : GameEngine :=
  mkGameEngine (state e) p (obstacles e) (coins e)
               (last_update e) (slide_timer e) (jump_timer e).

Definition with_obstacles (l : list Obstacle) (e : GameEngine) : GameEngine :=
  mkGameEngine (state e) (player e) l (coins e)
               (last_update e) (slide_timer e) (jump_timer e).

Definition with_coins (l : list Coin) (e : GameEngine) : GameEngine :=
  mkGameEngine (state e) (player e) (obstacles e) l
               (last_update e) (slide_timer e) (jump_timer e).

Definition with_slide_timer (t : Q) (e : GameEngine) : GameEngine :=
  mkGameEngine (state e) (player e) (obstacles e) (coins e)
               (last_update e) t (jump_timer e).

Definition with_jump_timer (t : Q) (e : GameEngine) : GameEngine :=
  mkGameEngine (state e) (player e) (obstacles e) (coins e)
               (last_update e) (slide_timer e) t.

Definition set_player_x (px : Q) (p : Player) : Player :=
  mkPlayer (set_position_x px (p_position p)) (p_width p) (p_height p)
           (p_active p) (lane p) (jumping p) (sliding p) (jump_height p).

Definition set_lane (l : Z) (p : Player) : Player :=
  mkPlayer (p_position p) (p_width p) (p_height p)
           (p_active p) l (jumping p) (sliding p) (jump_height p).

Definition set_jumping (b : bool) (p : Player) : Player :=
  mkPlayer (p_position p) (p_width p) (p_height p)
           (p_active p) (lane p) b (sliding p) (jump_height p).

Definition set_sliding (b : bool) (p : Player) : Player :=
  mkPlayer (p_position p) (p_width p) (p_height p)
           (p_active p) (lane p) (jumping p) b (jump_height p).

Definition set_jump_height (h : Q) (p : Player) : Player :=
  mkPlayer (p_position p) (p_width p) (p_height p)
           (p_active p) (lane p) (jumping p) (sliding p) h.

Definition set_lives (n : Z) (s : GameState) : GameState :=
  mkGameState (score s) (distance s) (coins_collected s) n
              (speed_multiplier s) (game_over s) (paused s) (high_score s).

Definition set_game_over (b : bool) (s : GameState) : GameState :=
  mkGameState (score s) (distance s) (coins_collected s) (lives s)
              (speed_multiplier s) b (paused s) (high_score s).

Definition set_paused (b : bool) (s : GameState) : GameState :=
  mkGameState (score s) (distance s) (coins_collected s) (lives s)
              (speed_multiplier s) (game_over s) b (high_score s).

Definition set_high_score (n : Z) (s : GameState) : GameState :=
  mkGameState (score s) (distance s) (coins_collected s) (lives s)
              (speed_multiplier s) (game_over s) (paused s) n.

Definition set_score (n : Z) (s : GameState) : GameState :=
  mkGameState n (distance s) (coins_collected s) (lives s)
              (speed_multiplier s) (game_over s) (paused s) (high_score s).

Definition set_distance (n : Z) (s : GameState) : GameState :=
  mkGameState (score s) n (coins_collected s) (lives s)
              (speed_multiplier s) (game_over s) (paused s) (high_score s).

Definition set_coins_collected (n : Z) (s : GameState) : GameState :=
  mkGameState (score s) (distance s) n (lives s)
              (speed_multiplier s) (game_over s) (paused s) (high_score s).

Definition set_speed_multiplier (m : Q) (s : GameState) : GameState :=
  mkGameState (score s) (distance s) (coins_collected s) (lives s)
              m (game_over s) (paused s) (high_score s).

Definition deactivate (o : Obstacle) : Obstacle :=
  mkObstacle (o_position o) (o_width o) (o_height o) false
             (obstacle_type o) (o_lane o).

Definition collect (c : Coin) : Coin :=
  mkCoin (c_position c) (c_width c) (c_height c) (c_active c) true.

Definition move_obstacle (dy : Q) (o : Obstacle) : Obstacle :=
  mkObstacle (add_position_y dy (o_position o)) (o_width o) (o_height o)
             (o_active o) (obstacle_type o) (o_lane o).

Definition move_coin (dy : Q) (c : Coin) : Coin :=
  mkCoin (add_position_y dy (c_position c)) (c_width c) (c_height c)
         (c_active c) (collected c).

(** ** Sources of nondeterminism *)

(** The three possible results of [random.randint(0, 2)]. *)
Inductive LaneDraw : Type := Lane0 | Lane1 | Lane2.

Definition randint_0_2 (d : LaneDraw) : Z :=
  match d with
  | Lane0 => 0
  | Lane1 => 1
  | Lane2 => 2
  end%Z.

(** The three possible results of [random.choice(['tree', 'rock', 'pit'])]. *)
Inductive KindDraw : Type := DrawTree | DrawRock | DrawPit.

Definition choice_kind (d : KindDraw) : string :=
  match d with
  | DrawTree => "tree"
  | DrawRock => "rock"
  | DrawPit => "pit"
  end%string.

(** What the random generator returns during one call of [update_game]:
    the value of [random.random()] in [_spawn_obstacles], the lane and
    the kind drawn there when the obstacle is spawned, and the same for
    [_spawn_coins]. *)
Record Draws : Type := mkDraws {
  obstacle_roll : Q;
  obstacle_lane : LaneDraw;
  obstacle_kind : KindDraw;
  coin_roll : Q;
  coin_lane : LaneDraw
}.

(** The content of [high_scores.json] as [load_high_score] sees it. *)
Inductive ScoreFile : Type :=
| FileAbsent
| FileUnreadable
| FileWithoutKey
| FileHolds (n : Z).

(** ** The engine's methods *)

(** [GameState()] *)
Definition GameState_default : GameState :=
  mkGameState 0 0 0 3 1 false false 0.

(** [reset_game]: every attribute is assigned afresh. *)
Definition reset_game (now : Q) (self : GameEngine) : GameEngine :=
  mkGameEngine
    GameState_default
    (mkPlayer (mkPosition 300 400) PLAYER_WIDTH PLAYER_HEIGHT true 1 false false 0)
    []
    []
    now
    0
    0.

Definition load_high_score (f : ScoreFile) (self : GameEngine) : GameEngine :=
  match f with
  | FileAbsent => self
  | FileHolds n => with_state (set_high_score n (state self)) self
  | FileWithoutKey => with_state (set_high_score 0 (state self)) self
  | FileUnreadable => with_state (set_high_score 0 (state self)) self
  end.

(** [save_high_score], as far as the engine object is concerned: the
    attribute is updated before the file is opened, and a failure of the
    write is swallowed. *)
Definition save_high_score (s : GameState) : GameState :=
  if (high_score s <? score s)%Z then set_high_score (score s) s else s.

(** [self.player.position.x = self.LANE_POSITIONS[self.player.lane]], after
    the lane has been assigned. *)
Definition snap_to_lane (self : GameEngine) : outcome :=
  match index LANE_POSITIONS (lane (player self)) with
  | Ok px => Returns (with_player (set_player_x px (player self)) self)
  | Raise x => Raises x self
  end.

Definition move_player (direction : string) (self : GameEngine) : outcome :=
  if game_over (state self) || paused (state self) then Returns self
  else if String.eqb direction "left" && (0 <? lane (player self))%Z then
    snap_to_lane
      (with_player (set_lane (lane (player self) - 1) (player self)) self)
  else if String.eqb direction "right" && (lane (player self) <? 2)%Z then
    snap_to_lane
      (with_player (set_lane (lane (player self) + 1) (player self)) self)
  else if String.eqb direction "up" && negb (jumping (player self)) then
    Returns
      (with_jump_timer 0 (with_player (set_jumping true (player self)) self))
  else if String.eqb direction "down" && negb (sliding (player self)) then
    Returns
      (with_slide_timer 0 (with_player (set_sliding true (player self)) self))
  else Returns self.

Definition _update_jump (delta_time : Q) (self : GameEngine) : GameEngine :=
  if jumping (player self) then
    let t := jump_timer self + delta_time in
    if ltb t (1 # 2) then
      with_jump_timer t
        (with_player (set_jump_height (JUMP_HEIGHT * (t / (1 # 2))) (player self)) self)
    else if ltb t 1 then
      with_jump_timer t
        (with_player
           (set_jump_height (JUMP_HEIGHT * (1 - (t - (1 # 2)) / (1 # 2))) (player self))
           self)
    else
      with_jump_timer 0
        (with_player (set_jump_height 0 (set_jumping false (player self))) self)
  else self.

Definition _update_slide (delta_time : Q) (self : GameEngine) : GameEngine :=
  if sliding (player self) then
    let t := slide_timer self + delta_time in
    if geb t SLIDE_DURATION then
      with_slide_timer 0 (with_player (set_sliding false (player self)) self)
    else with_slide_timer t self
  else self.

Definition _update_player_actions (delta_time : Q) (self : GameEngine)
  : GameEngine :=
  _update_slide delta_time (_update_jump delta_time self).

Definition _spawn_obstacles (rnd : Draws) (self : GameEngine) : outcome :=
  if ltb (obstacle_roll rnd)
         (OBSTACLE_SPAWN_RATE * speed_multiplier (state self)) then
    let l := randint_0_2 (obstacle_lane rnd) in
    let kind := choice_kind (obstacle_kind rnd) in
    match index LANE_POSITIONS l with
    | Ok px =>
        Returns
          (with_obstacles
             (obstacles self ++
                [mkObstacle (mkPosition px (-50)) OBSTACLE_WIDTH OBSTACLE_HEIGHT
                            true kind l])
             self)
    | Raise x => Raises x self
    end
  else Returns self.

Definition _spawn_coins (rnd : Draws) (self : GameEngine) : outcome :=
  if ltb (coin_roll rnd) COIN_SPAWN_RATE then
    let l := randint_0_2 (coin_lane rnd) in
    match index LANE_POSITIONS l with
    | Ok px =>
        Returns
          (with_coins
             (coins self ++
                [mkCoin (mkPosition px (-30)) COIN_SIZE COIN_SIZE true false])
             self)
    | Raise x => Raises x self
    end
  else Returns self.

Definition _update_obstacles (delta_time : Q) (self : GameEngine)
  : GameEngine :=
  let speed := 300 * speed_multiplier (state self) in
  with_obstacles (map (move_obstacle (speed * delta_time)) (obstacles self)) self.

Definition _update_coins (delta_time : Q) (self : GameEngine) : GameEngine :=
  let speed := 300 * speed_multiplier (state self) in
  with_coins (map (move_coin (speed * delta_time)) (coins self)) self.

Definition _get_player_rect (self : GameEngine) : Rect :=
  let y_offset := if jumping (player self) then jump_height (player self) else 0 in
  let height := if sliding (player self) then floordiv2 PLAYER_HEIGHT
                else PLAYER_HEIGHT in
  (pos_x (p_position (player self)) - floordiv2 PLAYER_WIDTH,
   pos_y (p_position (player self)) - height - y_offset,
   PLAYER_WIDTH,
   height).

Definition _rects_collide (rect1 rect2 : Rect) : bool :=
  let '(x1, y1, w1, h1) := rect1 in
  let '(x2, y2, w2, h2) := rect2 in
  ltb x1 (x2 + w2) && ltb x2 (x1 + w1) &&
  ltb y1 (y2 + h2) && ltb y2 (y1 + h1).

Definition _handle_collision (s : GameState) : GameState :=
  let s1 := set_lives (lives s - 1) s in
  if (lives s1 <=? 0)%Z then save_high_score (set_game_over true s1) else s1.

Definition obstacle_rect (o : Obstacle) : Rect :=
  (pos_x (o_position o) - floordiv2 (o_width o),
   pos_y (o_position o) - floordiv2 (o_height o),
   o_width o,
   o_height o).

Definition coin_rect (c : Coin) : Rect :=
  (pos_x (c_position c) - floordiv2 (c_width c),
   pos_y (c_position c) - floordiv2 (c_height c),
   c_width c,
   c_height c).

(** Is the obstacle of this kind a hit for the player? *)
Definition is_hit (p : Player) (kind : string) : bool :=
  if String.eqb kind "pit" && negb (jumping p) then true
  else if (String.eqb kind "tree" || String.eqb kind "rock") && negb (sliding p)
       then true
       else false.

(** The body of the loop over [self.obstacles] in [_check_collisions]. *)
Definition collide_obstacle (p : Player) (player_rect : Rect)
           (s : GameState) (o : Obstacle) : GameState * Obstacle :=
  if negb (o_active o) then (s, o)
  else if _rects_collide player_rect (obstacle_rect o) then
    ((if is_hit p (obstacle_type o) then _handle_collision s else s),
     deactivate o)
  else (s, o).

Fixpoint collide_obstacles (p : Player) (player_rect : Rect)
         (s : GameState) (l : list Obstacle) : GameState * list Obstacle :=
  match l with
  | [] => (s, [])
  | o :: rest =>
      let '(s1, o1) := collide_obstacle p player_rect s o in
      let '(s2, rest2) := collide_obstacles p player_rect s1 rest in
      (s2, o1 :: rest2)
  end.

(** The body of the loop over [self.coins] in [_check_collisions]. *)
Definition collide_coin (player_rect : Rect) (s : GameState) (c : Coin)
  : GameState * Coin :=
  if collected c then (s, c)
  else if _rects_collide player_rect (coin_rect c) then
    (set_score (score s + 50) (set_coins_collected (coins_collected s + 1) s),
     collect c)
  else (s, c).

Fixpoint collide_coins (player_rect : Rect) (s : GameState) (l : list Coin)
  : GameState * list Coin :=
  match l with
  | [] => (s, [])
  | c :: rest =>
      let '(s1, c1) := collide_coin player_rect s c in
      let '(s2, rest2) := collide_coins player_rect s1 rest in
      (s2, c1 :: rest2)
  end.

Definition _check_collisions (self : GameEngine) : GameEngine :=
  let player_rect := _get_player_rect self in
  let '(s1, obs) := collide_obstacles (player self) player_rect
                                      (state self) (obstacles self) in
  let '(s2, cs) := collide_coins player_rect s1 (coins self) in
  with_coins cs (with_obstacles obs (with_state s2 self)).

Definition _cleanup_objects (self : GameEngine) : GameEngine :=
  with_coins
    (filter (fun c => ltb (pos_y (c_position c)) 600) (coins self))
    (with_obstacles
       (filter (fun o => ltb (pos_y (o_position o)) 600) (obstacles self))
       self).

(** The scoring step at the head of [update_game]. *)
Definition advance_score (delta_time : Q) (s : GameState) : GameState :=
  let s1 := set_distance
              (distance s + int (100 * delta_time * speed_multiplier s)) s in
  let s2 := set_score
              (score s1 + int (10 * delta_time * speed_multiplier s1)) s1 in
  set_speed_multiplier
    (min 3 (1 + inject_Z (distance s2) / 10000)) s2.

Definition update_game (delta_time : Q) (rnd : Draws) (self : GameEngine)
  : outcome :=
  if game_over (state self) || paused (state self) then Returns self
  else
    let e1 := with_state (advance_score delta_time (state self)) self in
    let e2 := _update_player_actions delta_time e1 in
    e3 <- _spawn_obstacles rnd e2 ;;
    e4 <- _spawn_coins rnd e3 ;;
    let e5 := _update_obstacles delta_time e4 in
    let e6 := _update_coins delta_time e5 in
    let e7 := _check_collisions e6 in
    Returns (_cleanup_objects e7).

Definition pause_game (self : GameEngine) : GameEngine :=
  with_state (set_paused (negb (paused (state self))) (state self)) self.


(** ** Operations of the driver and reachable engines *)

Inductive Op : Type :=
| Tick (delta_time : Q) (rnd : Draws)
| Move (direction : string)
| Pause
| Reset (now : Q).

Definition step (o : Op) (self : GameEngine) : outcome :=
  match o with
  | Tick delta_time rnd => update_game delta_time rnd self
  | Move direction => move_player direction self
  | Pause => Returns (pause_game self)
  | Reset now => Returns (reset_game now self)
  end.

(** The driver keeps the engine object whatever a call did to it. *)
Fixpoint run (ops : list Op) (self : GameEngine) : GameEngine :=
  match ops with
  | [] => self
  | o :: rest => run rest (engine_after (step o self))
  end.

Definition nonneg_time (o : Op) : Prop :=
  match o with
  | Tick delta_time _ => 0 <= delta_time
  | _ => True
  end.

Definition not_reset (o : Op) : Prop :=
  match o with
  | Reset _ => False
  | _ => True
  end.

(** The engine as [__init__] leaves it: [reset_game], then
    [load_high_score]. *)
Definition new_engine (now : Q) (f : ScoreFile) (blank : GameEngine)
  : GameEngine :=
  load_high_score f (reset_game now blank).

Inductive reachable : GameEngine -> Prop :=
| reach_new (now : Q) (f : ScoreFile) (blank : GameEngine) :
    reachable (new_engine now f blank)
| reach_step (o : Op) (e : GameEngine) :
    reachable e -> nonneg_time o -> reachable (engine_after (step o e)).

(** One frame of a running engine in which the obstacles [os] and the
    coins [cs] are spawned: the steps of [update_game] in their order. *)
Definition frame (os : list Obstacle) (cs : list Coin) (delta_time : Q)
           (self : GameEngine) : GameEngine :=
  let e2 := _update_player_actions delta_time
              (with_state (advance_score delta_time (state self)) self) in
  let e4 := with_coins (coins e2 ++ cs)
              (with_obstacles (obstacles e2 ++ os) e2) in
  _cleanup_objects
    (_check_collisions (_update_coins delta_time (_update_obstacles delta_time e4))).

(** ** Predicates used in the statements *)

Definition running (e : GameEngine) : Prop :=
  game_over (state e) = false /\ paused (state e) = false.

(** The obstacle is looked at by the collision loop and overlaps [rect]. *)
Definition resolves (rect : Rect) (o : Obstacle) : bool :=
  o_active o && _rects_collide rect (obstacle_rect o).

(** The coin is looked at by the collision loop and overlaps [rect]. *)
Definition picks_up (rect : Rect) (c : Coin) : bool :=
  negb (collected c) && _rects_collide rect (coin_rect c).

(** What the collision loop leaves of an obstacle and of a coin. *)
Definition resolved (rect : Rect) (o : Obstacle) : Obstacle :=
  if resolves rect o then deactivate o else o.

Definition picked (rect : Rect) (c : Coin) : Coin :=
  if picks_up rect c then collect c else c.

(** The obstacle costs the player a life in the collision loop. *)
Definition hits (p : Player) (rect : Rect) (o : Obstacle) : bool :=
  resolves rect o && is_hit p (obstacle_type o).

Definition count {A : Type} (f : A -> bool) (l : list A) : Z :=
  Z.of_nat (length (filter f l)).

(** The distance an object scrolls during one frame of a running engine:
    the speed is taken after the multiplier has been recomputed. *)
Definition scroll (delta_time : Q) (e : GameEngine) : Q :=
  300 * speed_multiplier (advance_score delta_time (state e)) * delta_time.

(** ** Invariants of the reachable engines *)

(** Lives never exceed three, and the game is over exactly when no life
    is left. *)
Definition lives_inv (s : GameState) : Prop :=
  (lives s <= 3)%Z /\ (game_over s = true <-> (lives s <= 0)%Z).

(** The distance is not negative and the multiplier is the one computed
    from it. *)
Definition speed_inv (s : GameState) : Prop :=
  (0 <= distance s)%Z /\
  speed_multiplier s == min 3 (1 + inject_Z (distance s) / 10000).

(** The player is in one of the three lanes. *)
Definition lane_inv (e : GameEngine) : Prop :=
  (0 <= lane (player e) <= 2)%Z.

(** ** The specification's formulas *)

(** [clamp(x, lo, hi)] as the specification writes the multiplier. *)
Definition spec_clamp (x lo hi : Q) : Q :=
  if ltb x lo then lo else if ltb hi x then hi else x.

Definition spec_speed_multiplier (d : Z) : Q :=
  spec_clamp (1 + inject_Z d / 10000) 1 3.

(** The triangular jump profile of the specification, as a function of
    the jump timer; grounded from one second on. *)
Definition spec_jump_height (t : Q) : Q :=
  if ltb t (1 # 2) then 80 * (t / (1 # 2))
  else if ltb t 1 then 80 * (1 - (t - (1 # 2)) / (1 # 2))
  else 0.

(** While the player is in the air the height is the profile at the jump
    timer; on the ground both are zero. *)
Definition jump_inv (e : GameEngine) : Prop :=
  if jumping (player e)
  then 0 <= jump_timer e /\ jump_timer e < 1 /\
       jump_height (player e) == spec_jump_height (jump_timer e)
  else jump_height (player e) == 0 /\ jump_timer e == 0.

(** ** Concrete engines and frames *)

Module Scenario.

(** An object before [__init__] has run; [reset_game] overwrites all of it. *)
Definition blank : GameEngine :=
  mkGameEngine (mkGameState 0 0 0 0 0 false false 0)
               (mkPlayer (mkPosition 0 0) 0 0 false 0 false false 0)
               [] [] 0 0 0.

(** A frame in which nothing is spawned. *)
Definition quiet : Draws := mkDraws (1 # 2) Lane0 DrawTree (1 # 2) Lane0.

(** A frame in which a tree is spawned in the left lane. *)
Definition tree_left : Draws := mkDraws 0 Lane0 DrawTree (1 # 2) Lane0.

(** A frame in which a tree and a coin are spawned in the centre lane. *)
Definition tree_and_coin : Draws := mkDraws 0 Lane1 DrawTree 0 Lane1.

(** A frame in which a pit is spawned in the centre lane. *)
Definition pit_centre : Draws := mkDraws 0 Lane1 DrawPit (1 # 2) Lane0.

(** A new engine whose score file holds 1200. *)
Definition fresh : GameEngine := new_engine 0 (FileHolds 1200) blank.

(** Four trees in a row in the left lane, twenty frames a second; when
    they are level with the player, the player steps into that lane. *)
Definition into_the_trees : list Op :=
  repeat (Tick (1 # 20) tree_left) 4 ++
  repeat (Tick (1 # 20) quiet) 22 ++
  [Move "left"; Tick (1 # 20) quiet].

(** A tree and a coin come down the centre lane and stop short of the
    player. *)
Definition approach : list Op :=
  Tick (1 # 20) tree_and_coin :: repeat (Tick (1 # 20) quiet) 22.

(** One more frame: the tree hits the player and the coin is picked up. *)
Definition at_resolution : list Op := approach ++ [Tick (1 # 20) quiet].

(** And the frame after that one. *)
Definition one_frame_later : list Op :=
  at_resolution ++ [Tick (1 # 20) quiet].

(** An active pit right on the player. *)
Definition pit_on_player : Obstacle :=
  mkObstacle (mkPosition 300 370) OBSTACLE_WIDTH OBSTACLE_HEIGHT true "pit" 1.

(** An uncollected coin right on the player. *)
Definition coin_on_player : Coin :=
  mkCoin (mkPosition 300 370) COIN_SIZE COIN_SIZE true false.

(** A paused engine. *)
Definition paused_engine : GameEngine := pause_game fresh.

(** An engine in the middle of a jump. *)
Definition jumper : GameEngine :=
  run [Move "up"; Tick (1 # 4) quiet] fresh.

End Scenario.

(** ** What one frame spawns *)

(** [LANE_POSITIONS[random.randint(0, 2)]] for each of the three draws. *)
Definition lane_position (d : LaneDraw) : Q :=
  match d with
  | Lane0 => 150
  | Lane1 => 300
  | Lane2 => 450
  end.

(** The obstacles that [_spawn_obstacles] appends when the multiplier is
    [m]: one or none. *)
Definition spawned_obstacles (rnd : Draws) (m : Q) : list Obstacle :=
  if ltb (obstacle_roll rnd) (OBSTACLE_SPAWN_RATE * m) then
    [mkObstacle (mkPosition (lane_position (obstacle_lane rnd)) (-50))
                OBSTACLE_WIDTH OBSTACLE_HEIGHT true
                (choice_kind (obstacle_kind rnd))
                (randint_0_2 (obstacle_lane rnd))]
  else [].

(** The coins that [_spawn_coins] appends: one or none. *)
Definition spawned_coins (rnd : Draws) : list Coin :=
  if ltb (coin_roll rnd) COIN_SPAWN_RATE then
    [mkCoin (mkPosition (lane_position (coin_lane rnd)) (-30))
            COIN_SIZE COIN_SIZE true false]
  else [].

(** ** Further invariants of the reachable engines *)

(** The player stands on the canonical position of the lane, with the
    size [reset_game] gave. *)
Definition player_inv (e : GameEngine) : Prop :=
  index LANE_POSITIONS (lane (player e)) = Ok (pos_x (p_position (player e))) /\
  pos_y (p_position (player e)) = 400 /\
  p_width (player e) = PLAYER_WIDTH /\
  p_height (player e) = PLAYER_HEIGHT /\
  p_active (player e) = true.

(** While the player slides the slide timer is below the slide duration;
    otherwise it is zero. *)
Definition slide_inv (e : GameEngine) : Prop :=
  if sliding (player e)
  then 0 <= slide_timer e /\ slide_timer e < 1
  else slide_timer e == 0.

(** A stored obstacle is as [_spawn_obstacles] made it, scrolled down and
    still above the cleanup line. *)
Definition obstacle_wf (o : Obstacle) : Prop :=
  o_width o = OBSTACLE_WIDTH /\
  o_height o = OBSTACLE_HEIGHT /\
  (0 <= o_lane o <= 2)%Z /\
  index LANE_POSITIONS (o_lane o) = Ok (pos_x (o_position o)) /\
  In (obstacle_type o) ["tree"; "rock"; "pit"]%string /\
  - (50) <= pos_y (o_position o) /\
  pos_y (o_position o) < 600.

(** A stored coin is as [_spawn_coins] made it, scrolled down and still
    above the cleanup line. *)
Definition coin_wf (c : Coin) : Prop :=
  c_width c = COIN_SIZE /\
  c_height c = COIN_SIZE /\
  c_active c = true /\
  In (pos_x (c_position c)) LANE_POSITIONS /\
  - (30) <= pos_y (c_position c) /\
  pos_y (c_position c) < 600.

Definition storage_inv (e : GameEngine) : Prop :=
  Forall obstacle_wf (obstacles e) /\ Forall coin_wf (coins e).

(** The operation is a frame or a move. *)
Definition tick_or_move (o : Op) : Prop :=
  match o with
  | Tick _ _ => True
  | Move _ => True
  | _ => False
  end.

(** ** The driver loop of [app/main.py] *)

(** The module-level engine and the module-level [last_update_time]. *)
Record Driver : Type := mkDriver {
  game_engine : GameEngine;
  last_update_time : Q
}.

(** One turn of the [while True] loop of [game_loop]: [current_time] is
    what [time.time()] returns.  The rendering and the sleep are left
    out. *)
Definition game_loop_iteration (current_time : Q) (rnd : Draws) (d : Driver)
  : Driver :=
  let delta_time := current_time - last_update_time d in
  mkDriver (engine_after (update_game delta_time rnd (game_engine d)))
           current_time.

Fixpoint game_loop (turns : list (Q * Draws)) (d : Driver) : Driver :=
  match turns with
  | [] => d
  | (current_time, rnd) :: rest =>
      game_loop rest (game_loop_iteration current_time rnd d)
  end.

(** The clock readings of the turns never go back, starting from [t0]. *)
Fixpoint clock_monotone (t0 : Q) (turns : list (Q * Draws)) : Prop :=
  match turns with
  | [] => True
  | (t, _) :: rest => t0 <= t /\ clock_monotone t rest
  end.

(** ** The lives line of the HUD in [app/components/game_ui.py] *)

(** [s * n] on a string: no copy at all when [n] is zero or negative. *)
Fixpoint str_times (s : string) (n : nat) : string :=
  match n with
  | O => EmptyString
  | S k => String.append s (str_times s k)
  end.

Definition str_mul (s : string) (n : Z) : string := str_times s (Z.to_nat n).

(** The text put into the [lives] span by [update_display]; [heart] is
    the one-character string of the source. *)
Definition hud_lives (heart : string) (s : GameState) : string :=
  str_mul heart (lives s).

(** * Facts about the Python primitives *)

(** Every frame of an explicit list of operations has a time step that
    is not negative. *)
Ltac nonneg_ops :=
  repeat (apply Forall_cons; [first [exact I | discriminate]|]);
  apply Forall_nil.

Section PyFacts.

Lemma ltb_lt (a b : Q) : ltb a b = true <-> a < b.
Proof. unfold ltb, Qlt. apply Z.ltb_lt. Qed.

Lemma ltb_ge (a b : Q) : ltb a b = false <-> b <= a.
Proof. unfold ltb, Qle. apply Z.ltb_ge. Qed.

Lemma geb_le (a b : Q) : geb a b = true <-> b <= a.
Proof. unfold geb. apply Qle_bool_iff. Qed.

Lemma int_nonneg (q : Q) : 0 <= q -> (0 <= int q)%Z.
Proof.
  intros H. unfold int. apply Z.quot_pos.
  - unfold Qle in H. simpl in H. lia.
  - lia.
Qed.

Lemma min_le_l (a b : Q) : min a b <= a.
Proof.
  unfold min. destruct (ltb b a) eqn:E.
  - apply ltb_lt in E. lra.
  - lra.
Qed.

Lemma min_case (a b : Q) :
  (b < a /\ min a b = b) \/ (a <= b /\ min a b = a).
Proof.
  unfold min. destruct (ltb b a) eqn:E.
  - left. apply ltb_lt in E. auto.
  - right. apply ltb_ge in E. auto.
Qed.

Lemma index_lane_positions (d : LaneDraw) :
  exists px, index LANE_POSITIONS (randint_0_2 d) = Ok px.
Proof. destruct d; eexists; reflexivity. Qed.

End PyFacts.

(** * The collision loops *)

Section CollisionLoop.

Variable p : Player.
Variable rect : Rect.

Lemma collide_obstacle_snd (s : GameState) (o : Obstacle) :
  snd (collide_obstacle p rect s o) = resolved rect o.
Proof.
  unfold collide_obstacle, resolved, resolves.
  destruct (o_active o); simpl; [|reflexivity].
  destruct (_rects_collide rect (obstacle_rect o)); reflexivity.
Qed.

Lemma collide_obstacle_fst (s : GameState) (o : Obstacle) :
  fst (collide_obstacle p rect s o) =
  if hits p rect o then _handle_collision s else s.
Proof.
  unfold collide_obstacle, hits, resolves.
  destruct (o_active o); simpl; [|reflexivity].
  destruct (_rects_collide rect (obstacle_rect o)); reflexivity.
Qed.

Lemma collide_obstacles_cons (s : GameState) (o : Obstacle) (l : list Obstacle) :
  collide_obstacles p rect s (o :: l) =
  (fst (collide_obstacles p rect (fst (collide_obstacle p rect s o)) l),
   snd (collide_obstacle p rect s o)
     :: snd (collide_obstacles p rect (fst (collide_obstacle p rect s o)) l)).
Proof.
  simpl. destruct (collide_obstacle p rect s o) as [s1 o1]. simpl.
  destruct (collide_obstacles p rect s1 l). reflexivity.
Qed.

Lemma collide_obstacles_snd (l : list Obstacle) (s : GameState) :
  snd (collide_obstacles p rect s l) = map (resolved rect) l.
Proof.
  revert s. induction l as [|o l IH]; intros s.
  - reflexivity.
  - rewrite collide_obstacles_cons. simpl.
    now rewrite collide_obstacle_snd, IH.
Qed.

Lemma collide_coin_snd (s : GameState) (c : Coin) :
  snd (collide_coin rect s c) = picked rect c.
Proof.
  unfold collide_coin, picked, picks_up.
  destruct (collected c); simpl; [reflexivity|].
  destruct (_rects_collide rect (coin_rect c)); reflexivity.
Qed.

Lemma collide_coin_fst (s : GameState) (c : Coin) :
  fst (collide_coin rect s c) =
  if picks_up rect c
  then set_score (score s + 50) (set_coins_collected (coins_collected s + 1) s)
  else s.
Proof.
  unfold collide_coin, picks_up.
  destruct (collected c); simpl; [reflexivity|].
  destruct (_rects_collide rect (coin_rect c)); reflexivity.
Qed.

Lemma collide_coins_cons (s : GameState) (c : Coin) (l : list Coin) :
  collide_coins rect s (c :: l) =
  (fst (collide_coins rect (fst (collide_coin rect s c)) l),
   snd (collide_coin rect s c)
     :: snd (collide_coins rect (fst (collide_coin rect s c)) l)).
Proof.
  simpl. destruct (collide_coin rect s c) as [s1 c1]. simpl.
  destruct (collide_coins rect s1 l). reflexivity.
Qed.

Lemma collide_coins_snd (l : list Coin) (s : GameState) :
  snd (collide_coins rect s l) = map (picked rect) l.
Proof.
  revert s. induction l as [|c l IH]; intros s.
  - reflexivity.
  - rewrite collide_coins_cons. simpl.
    now rewrite collide_coin_snd, IH.
Qed.

Lemma count_cons {A : Type} (f : A -> bool) (a : A) (l : list A) :
  count f (a :: l) = ((if f a then 1 else 0) + count f l)%Z.
Proof.
  unfold count. simpl. destruct (f a); simpl length; lia.
Qed.

(** The fields a life loss leaves alone. *)
Lemma handle_collision_frame (s : GameState) :
  lives (_handle_collision s) = (lives s - 1)%Z /\
  score (_handle_collision s) = score s /\
  distance (_handle_collision s) = distance s /\
  coins_collected (_handle_collision s) = coins_collected s /\
  speed_multiplier (_handle_collision s) = speed_multiplier s /\
  paused (_handle_collision s) = paused s.
Proof.
  unfold _handle_collision, save_high_score.
  cbn [lives set_lives set_game_over score high_score].
  destruct (lives s - 1 <=? 0)%Z; [|now cbn].
  destruct (high_score s <? score s)%Z; now cbn.
Qed.

(** The obstacle loop: one life for each obstacle that hits, and no
    other field of the score board moves. *)
Lemma collide_obstacles_fst (l : list Obstacle) (s : GameState) :
  let s' := fst (collide_obstacles p rect s l) in
  lives s' = (lives s - count (hits p rect) l)%Z /\
  score s' = score s /\
  distance s' = distance s /\
  coins_collected s' = coins_collected s /\
  speed_multiplier s' = speed_multiplier s /\
  paused s' = paused s.
Proof.
  revert s. induction l as [|o l IH]; intros s; cbn zeta.
  - cbn. repeat split; lia.
  - rewrite collide_obstacles_cons, count_cons. cbn [fst].
    specialize (IH (fst (collide_obstacle p rect s o))). cbn zeta in IH.
    rewrite collide_obstacle_fst in *.
    destruct IH as (L & S & D & C & M & P).
    rewrite L, S, D, C, M, P.
    destruct (hits p rect o).
    + destruct (handle_collision_frame s) as (L1 & S1 & D1 & C1 & M1 & P1).
      rewrite L1, S1, D1, C1, M1, P1. repeat split; lia.
    + repeat split; lia.
Qed.

(** The coin loop: one coin and fifty points for each coin picked up. *)
Lemma collide_coins_fst (l : list Coin) (s : GameState) :
  let s' := fst (collide_coins rect s l) in
  coins_collected s' = (coins_collected s + count (picks_up rect) l)%Z /\
  score s' = (score s + 50 * count (picks_up rect) l)%Z /\
  lives s' = lives s /\
  distance s' = distance s /\
  speed_multiplier s' = speed_multiplier s /\
  game_over s' = game_over s /\
  paused s' = paused s /\
  high_score s' = high_score s.
Proof.
  revert s. induction l as [|c l IH]; intros s; cbn zeta.
  - cbn. repeat split; lia.
  - rewrite collide_coins_cons, count_cons. cbn [fst].
    specialize (IH (fst (collide_coin rect s c))). cbn zeta in IH.
    rewrite collide_coin_fst in *.
    destruct IH as (C & S & L & D & M & G & P & H).
    rewrite C, S, L, D, M, G, P, H.
    destruct (picks_up rect c);
      cbn [score coins_collected set_score set_coins_collected lives distance
           speed_multiplier game_over paused high_score];
      repeat split; lia.
Qed.

End CollisionLoop.

(** * The steps of one frame *)

Section Frame.

Lemma engine_eta (e : GameEngine) :
  mkGameEngine (state e) (player e) (obstacles e) (coins e)
               (last_update e) (slide_timer e) (jump_timer e) = e.
Proof. destruct e; reflexivity. Qed.

Lemma spawn_obstacles_returns (rnd : Draws) (e : GameEngine) :
  exists os,
    _spawn_obstacles rnd e = Returns (with_obstacles (obstacles e ++ os) e) /\
    Forall (fun o => o_active o = true) os.
Proof.
  unfold _spawn_obstacles.
  destruct (ltb (obstacle_roll rnd) _).
  - cbv zeta.
    destruct (index_lane_positions (obstacle_lane rnd)) as [px E].
    rewrite E. eexists [_]. split; [reflexivity|].
    constructor; [reflexivity|constructor].
  - exists []. split; [|constructor].
    rewrite app_nil_r. unfold with_obstacles. now rewrite engine_eta.
Qed.

Lemma spawn_coins_returns (rnd : Draws) (e : GameEngine) :
  exists cs,
    _spawn_coins rnd e = Returns (with_coins (coins e ++ cs) e) /\
    Forall (fun c => collected c = false) cs.
Proof.
  unfold _spawn_coins.
  destruct (ltb (coin_roll rnd) _).
  - cbv zeta.
    destruct (index_lane_positions (coin_lane rnd)) as [px E].
    rewrite E. eexists [_]. split; [reflexivity|].
    constructor; [reflexivity|constructor].
  - exists []. split; [|constructor].
    rewrite app_nil_r. unfold with_coins. now rewrite engine_eta.
Qed.

Lemma not_running_flags (e : GameEngine) :
  paused (state e) = true \/ game_over (state e) = true ->
  game_over (state e) || paused (state e) = true.
Proof. intros [H | H]; rewrite H; auto using orb_true_r. Qed.

Lemma running_flags (e : GameEngine) :
  running e -> game_over (state e) || paused (state e) = false.
Proof. intros [G P]. now rewrite G, P. Qed.

(** A frame of a running engine never raises, and is [frame] for the
    objects that the draws spawn. *)
Lemma update_game_frame (delta_time : Q) (rnd : Draws) (e : GameEngine) :
  running e ->
  exists os cs,
    update_game delta_time rnd e = Returns (frame os cs delta_time e) /\
    Forall (fun o => o_active o = true) os /\
    Forall (fun c => collected c = false) cs.
Proof.
  intros R. unfold update_game. rewrite (running_flags e R). cbv zeta.
  set (e2 := _update_player_actions delta_time _).
  destruct (spawn_obstacles_returns rnd e2) as (os & E1 & F1).
  rewrite E1. cbn [and_then].
  destruct (spawn_coins_returns rnd (with_obstacles (obstacles e2 ++ os) e2))
    as (cs & E2 & F2).
  rewrite E2. cbn [and_then].
  exists os, cs. repeat split; assumption.
Qed.

Lemma update_game_stopped (delta_time : Q) (rnd : Draws) (e : GameEngine) :
  paused (state e) = true \/ game_over (state e) = true ->
  update_game delta_time rnd e = Returns e.
Proof.
  intros H. unfold update_game. now rewrite (not_running_flags e H).
Qed.

Lemma check_collisions_eq (e : GameEngine) :
  let rect := _get_player_rect e in
  _check_collisions e =
  with_coins (map (picked rect) (coins e))
    (with_obstacles (map (resolved rect) (obstacles e))
       (with_state
          (fst (collide_coins rect
                  (fst (collide_obstacles (player e) rect (state e) (obstacles e)))
                  (coins e)))
          e)).
Proof.
  cbv zeta. unfold _check_collisions.
  rewrite <- (collide_obstacles_snd (player e) _ (obstacles e) (state e)).
  destruct (collide_obstacles (player e) (_get_player_rect e) (state e)
                              (obstacles e)) as [s1 obs].
  cbn [fst snd].
  rewrite <- (collide_coins_snd _ (coins e) s1).
  destruct (collide_coins (_get_player_rect e) s1 (coins e)) as [s2 cs].
  reflexivity.
Qed.

(** The player's actions touch the player and the two timers only. *)
Lemma update_player_actions_frame (delta_time : Q) (e : GameEngine) :
  state (_update_player_actions delta_time e) = state e /\
  obstacles (_update_player_actions delta_time e) = obstacles e /\
  coins (_update_player_actions delta_time e) = coins e /\
  last_update (_update_player_actions delta_time e) = last_update e.
Proof.
  unfold _update_player_actions, _update_slide, _update_jump.
  destruct (jumping (player e));
    [destruct (ltb (jump_timer e + delta_time) (1 # 2));
     [|destruct (ltb (jump_timer e + delta_time) 1)]|];
    cbn [player with_player with_jump_timer set_jump_height set_jumping
         sliding slide_timer];
    destruct (sliding (player e)); try destruct (geb _ _);
    repeat split; reflexivity.
Qed.

Lemma update_player_actions_with_state (delta_time : Q) (s : GameState)
      (e : GameEngine) :
  _update_player_actions delta_time (with_state s e) =
  with_state s (_update_player_actions delta_time e).
Proof.
  unfold _update_player_actions, _update_slide, _update_jump.
  cbn [player with_state jump_timer slide_timer].
  destruct (jumping (player e));
    [destruct (ltb (jump_timer e + delta_time) (1 # 2));
     [|destruct (ltb (jump_timer e + delta_time) 1)]|];
    cbn [player with_player with_jump_timer set_jump_height set_jumping
         sliding slide_timer with_state];
    destruct (sliding (player e)); try destruct (geb _ _);
    reflexivity.
Qed.

End Frame.

Section FrameProjections.

Variables (os : list Obstacle) (cs : list Coin) (delta_time : Q).
Variable e : GameEngine.

(** The engine after the player's actions of this frame, the player's
    rectangle there, and the objects after they have scrolled. *)
Local Abbreviation acted := (_update_player_actions delta_time e).
Local Abbreviation frame_rect := (_get_player_rect acted).
Local Abbreviation moved_obstacles :=
  (map (move_obstacle (scroll delta_time e)) (obstacles e ++ os)).
Local Abbreviation moved_coins :=
  (map (move_coin (scroll delta_time e)) (coins e ++ cs)).

Lemma get_player_rect_player (e1 e2 : GameEngine) :
  player e1 = player e2 -> _get_player_rect e1 = _get_player_rect e2.
Proof. unfold _get_player_rect. now intros ->. Qed.

(** One projection of [frame] at a time: the cleanup and the collision
    step are opened, the projection is pushed through the field updates,
    and the player's rectangle is the one after the player's actions. *)
Ltac frame_projection :=
  unfold frame; rewrite update_player_actions_with_state; cbv zeta;
  unfold _cleanup_objects; rewrite check_collisions_eq; cbv zeta;
  cbn [state player obstacles coins last_update slide_timer jump_timer
       with_state with_player with_obstacles with_coins
       _update_coins _update_obstacles];
  try rewrite (get_player_rect_player _ acted) by reflexivity.

Lemma frame_player : player (frame os cs delta_time e) = player acted.
Proof. frame_projection. reflexivity. Qed.

Lemma frame_jump_timer :
  jump_timer (frame os cs delta_time e) = jump_timer acted.
Proof. frame_projection. reflexivity. Qed.

Lemma frame_obstacles :
  obstacles (frame os cs delta_time e) =
  filter (fun o => ltb (pos_y (o_position o)) 600)
         (map (resolved frame_rect) moved_obstacles).
Proof.
  destruct (update_player_actions_frame delta_time e) as (_ & O & _).
  frame_projection. rewrite O. reflexivity.
Qed.

Lemma frame_coins :
  coins (frame os cs delta_time e) =
  filter (fun c => ltb (pos_y (c_position c)) 600)
         (map (picked frame_rect) moved_coins).
Proof.
  destruct (update_player_actions_frame delta_time e) as (_ & _ & C & _).
  frame_projection. rewrite C. reflexivity.
Qed.

Lemma frame_state :
  state (frame os cs delta_time e) =
  fst (collide_coins frame_rect
         (fst (collide_obstacles (player acted) frame_rect
                 (advance_score delta_time (state e)) moved_obstacles))
         moved_coins).
Proof.
  destruct (update_player_actions_frame delta_time e) as (_ & O & C & _).
  frame_projection. rewrite O, C. reflexivity.
Qed.

(** The collision loops do not touch the distance or the multiplier. *)
Lemma frame_distance :
  distance (state (frame os cs delta_time e)) =
  distance (advance_score delta_time (state e)) /\
  speed_multiplier (state (frame os cs delta_time e)) =
  speed_multiplier (advance_score delta_time (state e)) /\
  paused (state (frame os cs delta_time e)) = paused (state e).
Proof.
  rewrite frame_state.
  destruct (collide_coins_fst frame_rect moved_coins
              (fst (collide_obstacles (player acted) frame_rect
                      (advance_score delta_time (state e)) moved_obstacles)))
    as (_ & _ & _ & D & M & _ & P & _).
  destruct (collide_obstacles_fst (player acted) frame_rect moved_obstacles
              (advance_score delta_time (state e)))
    as (_ & _ & D' & _ & M' & P').
  rewrite D, M, P, D', M', P'. repeat split; reflexivity.
Qed.

End FrameProjections.

(** * Invariants of the score board *)

Section StateInvariants.

Lemma advance_score_frame (delta_time : Q) (s : GameState) :
  lives (advance_score delta_time s) = lives s /\
  game_over (advance_score delta_time s) = game_over s /\
  paused (advance_score delta_time s) = paused s /\
  coins_collected (advance_score delta_time s) = coins_collected s /\
  high_score (advance_score delta_time s) = high_score s /\
  distance (advance_score delta_time s) =
    (distance s + int (100 * delta_time * speed_multiplier s))%Z /\
  score (advance_score delta_time s) =
    (score s + int (10 * delta_time * speed_multiplier s))%Z /\
  speed_multiplier (advance_score delta_time s) =
    min 3 (1 + inject_Z (distance (advance_score delta_time s)) / 10000).
Proof. repeat split; reflexivity. Qed.

Lemma inject_Z_div_le (a b : Z) :
  (a <= b)%Z -> inject_Z a / 10000 <= inject_Z b / 10000.
Proof.
  intros H. rewrite Zle_Qle in H.
  unfold Qdiv. apply Qmult_le_compat_r; [assumption|]. discriminate.
Qed.

Lemma min3_mono (a b : Q) : a <= b -> min 3 a <= min 3 b.
Proof.
  intros H.
  destruct (min_case 3 a) as [[A ->] | [A ->]];
    destruct (min_case 3 b) as [[B ->] | [B ->]]; lra.
Qed.

Lemma inject_Z_div_nonneg (d : Z) :
  (0 <= d)%Z -> 0 <= inject_Z d / 10000.
Proof.
  intros H. apply inject_Z_div_le in H.
  apply Qle_trans with (inject_Z 0 / 10000); [discriminate|exact H].
Qed.

Lemma min3_ge_1 (d : Z) :
  (0 <= d)%Z -> 1 <= min 3 (1 + inject_Z d / 10000).
Proof.
  intros H. apply inject_Z_div_nonneg in H.
  destruct (min_case 3 (1 + inject_Z d / 10000)) as [[A ->] | [A ->]]; lra.
Qed.

Lemma speed_inv_bounds (s : GameState) :
  speed_inv s -> 1 <= speed_multiplier s <= 3.
Proof.
  intros [D M]. rewrite M. split.
  - now apply min3_ge_1.
  - apply min_le_l.
Qed.

(** The scoring step keeps the invariant and never lowers the distance
    or the multiplier when time does not run backwards. *)
Lemma advance_score_speed (delta_time : Q) (s : GameState) :
  0 <= delta_time -> speed_inv s ->
  speed_inv (advance_score delta_time s) /\
  (distance s <= distance (advance_score delta_time s))%Z /\
  speed_multiplier s <= speed_multiplier (advance_score delta_time s).
Proof.
  intros T I. pose proof (speed_inv_bounds s I) as B. destruct I as [D M].
  destruct (advance_score_frame delta_time s)
    as (_ & _ & _ & _ & _ & D' & _ & M').
  assert (G : (0 <= int (100 * delta_time * speed_multiplier s))%Z).
  { apply int_nonneg. apply Qmult_le_0_compat; [|lra].
    apply Qmult_le_0_compat; [discriminate|assumption]. }
  assert (L : (distance s <= distance (advance_score delta_time s))%Z)
    by (rewrite D'; lia).
  split; [split|split].
  - lia.
  - rewrite M' at 1. reflexivity.
  - exact L.
  - rewrite M, M'. apply min3_mono.
    apply inject_Z_div_le in L. lra.
Qed.

Lemma handle_collision_lives_inv (s : GameState) :
  lives_inv s -> lives_inv (_handle_collision s).
Proof.
  intros [L G]. unfold _handle_collision, save_high_score, lives_inv.
  cbn [lives set_lives set_game_over score high_score].
  destruct (lives s - 1 <=? 0)%Z eqn:E.
  - apply Z.leb_le in E.
    destruct (high_score s <? score s)%Z; cbn; split; try lia;
      split; auto.
  - apply Z.leb_gt in E. cbn. split; [lia|].
    rewrite G. lia.
Qed.

Lemma collide_obstacles_lives_inv (p : Player) (rect : Rect)
      (l : list Obstacle) (s : GameState) :
  lives_inv s -> lives_inv (fst (collide_obstacles p rect s l)).
Proof.
  revert s. induction l as [|o l IH]; intros s I.
  - exact I.
  - rewrite collide_obstacles_cons. cbn [fst]. apply IH.
    rewrite collide_obstacle_fst.
    destruct (hits p rect o); [now apply handle_collision_lives_inv|exact I].
Qed.

Lemma collide_coins_lives_inv (rect : Rect) (l : list Coin) (s : GameState) :
  lives_inv s -> lives_inv (fst (collide_coins rect s l)).
Proof.
  intros I. unfold lives_inv.
  destruct (collide_coins_fst rect l s) as (_ & _ & L & _ & _ & G & _).
  rewrite L, G. exact I.
Qed.

Lemma frame_lives_inv (os : list Obstacle) (cs : list Coin)
      (delta_time : Q) (e : GameEngine) :
  lives_inv (state e) -> lives_inv (state (frame os cs delta_time e)).
Proof.
  intros I. rewrite frame_state.
  apply collide_coins_lives_inv, collide_obstacles_lives_inv.
  exact I.
Qed.

Lemma frame_speed_inv (os : list Obstacle) (cs : list Coin)
      (delta_time : Q) (e : GameEngine) :
  0 <= delta_time -> speed_inv (state e) ->
  speed_inv (state (frame os cs delta_time e)) /\
  speed_multiplier (state e) <=
    speed_multiplier (state (frame os cs delta_time e)).
Proof.
  intros T I.
  destruct (frame_distance os cs delta_time e) as (D & M & _).
  destruct (advance_score_speed delta_time (state e) T I) as ([D1 M1] & _ & L).
  unfold speed_inv. rewrite D, M. repeat split; assumption.
Qed.

Lemma snap_to_lane_frame (e : GameEngine) :
  state (engine_after (snap_to_lane e)) = state e /\
  obstacles (engine_after (snap_to_lane e)) = obstacles e /\
  coins (engine_after (snap_to_lane e)) = coins e /\
  jump_timer (engine_after (snap_to_lane e)) = jump_timer e /\
  jumping (player (engine_after (snap_to_lane e))) = jumping (player e) /\
  jump_height (player (engine_after (snap_to_lane e))) = jump_height (player e).
Proof.
  unfold snap_to_lane.
  destruct (index LANE_POSITIONS (lane (player e))); repeat split; reflexivity.
Qed.

(** A move leaves the score board and the objects alone. *)
Lemma move_player_frame (direction : string) (e : GameEngine) :
  state (engine_after (move_player direction e)) = state e /\
  obstacles (engine_after (move_player direction e)) = obstacles e /\
  coins (engine_after (move_player direction e)) = coins e.
Proof.
  unfold move_player.
  repeat match goal with
         | |- context [if ?c then _ else _] => destruct c
         end;
    try (repeat split; reflexivity).
  - destruct (snap_to_lane_frame
                (with_player (set_lane (lane (player e) - 1) (player e)) e))
      as (S & O & C & _).
    now rewrite S, O, C.
  - destruct (snap_to_lane_frame
                (with_player (set_lane (lane (player e) + 1) (player e)) e))
      as (S & O & C & _).
    now rewrite S, O, C.
Qed.

Lemma new_engine_state (now : Q) (f : ScoreFile) (blank : GameEngine) :
  exists n, state (new_engine now f blank) = mkGameState 0 0 0 3 1 false false n.
Proof. destruct f; eexists; reflexivity. Qed.

Lemma default_state_inv (n : Z) :
  lives_inv (mkGameState 0 0 0 3 1 false false n) /\
  speed_inv (mkGameState 0 0 0 3 1 false false n).
Proof.
  unfold lives_inv, speed_inv.
  cbn [lives game_over distance speed_multiplier].
  split; split.
  - lia.
  - split; [discriminate|lia].
  - lia.
  - reflexivity.
Qed.

(** Every step keeps the two invariants of the score board. *)
Lemma step_state_inv (o : Op) (e : GameEngine) :
  nonneg_time o ->
  lives_inv (state e) /\ speed_inv (state e) ->
  lives_inv (state (engine_after (step o e))) /\
  speed_inv (state (engine_after (step o e))).
Proof.
  intros T [L S]. destruct o as [dt rnd | d | | now]; cbn [step].
  - destruct (paused (state e)) eqn:P;
      [|destruct (game_over (state e)) eqn:G].
    + rewrite update_game_stopped by auto. now split.
    + rewrite update_game_stopped by auto. now split.
    + destruct (update_game_frame dt rnd e) as (os & cs & E & _);
        [now split|].
      rewrite E. cbn [engine_after]. split.
      * now apply frame_lives_inv.
      * now apply frame_speed_inv.
  - destruct (move_player_frame d e) as (E & _). rewrite E. now split.
  - cbn. split; assumption.
  - apply (default_state_inv 0).
Qed.

Lemma reachable_state_inv (e : GameEngine) :
  reachable e -> lives_inv (state e) /\ speed_inv (state e).
Proof.
  induction 1 as [now f blank | o e R IH T].
  - destruct (new_engine_state now f blank) as [n ->].
    apply default_state_inv.
  - now apply step_state_inv.
Qed.

Lemma reachable_run (ops : list Op) (e : GameEngine) :
  reachable e -> Forall nonneg_time ops -> reachable (run ops e).
Proof.
  revert e. induction ops as [|o ops IH]; intros e R F.
  - exact R.
  - inversion F; subst. cbn [run]. apply IH; [|assumption].
    now apply reach_step.
Qed.

End StateInvariants.

(** * The jump *)

Section Jump.

Lemma spec_jump_height_rise (t : Q) :
  t < 1 # 2 -> spec_jump_height t = 80 * (t / (1 # 2)).
Proof.
  intros H. unfold spec_jump_height.
  apply ltb_lt in H. now rewrite H.
Qed.

Lemma spec_jump_height_fall (t : Q) :
  1 # 2 <= t -> t < 1 ->
  spec_jump_height t = 80 * (1 - (t - (1 # 2)) / (1 # 2)).
Proof.
  intros H1 H2. unfold spec_jump_height.
  apply ltb_ge in H1. apply ltb_lt in H2. now rewrite H1, H2.
Qed.

Lemma spec_jump_height_landed (t : Q) : 1 <= t -> spec_jump_height t = 0.
Proof.
  intros H. unfold spec_jump_height.
  assert (H1 : 1 # 2 <= t) by lra.
  apply ltb_ge in H1. apply ltb_ge in H. now rewrite H1, H.
Qed.

Lemma spec_jump_height_symmetric (t : Q) :
  0 <= t -> t <= 1 -> spec_jump_height t == spec_jump_height (1 - t).
Proof.
  intros H0 H1.
  destruct (Qlt_le_dec t (1 # 2)) as [A | A].
  - rewrite (spec_jump_height_rise t A).
    destruct (Qlt_le_dec 0 t) as [B | B].
    + rewrite (spec_jump_height_fall (1 - t)) by lra. field.
    + rewrite (spec_jump_height_landed (1 - t)) by lra.
      assert (E : t == 0) by lra. rewrite E. reflexivity.
  - destruct (Qlt_le_dec t 1) as [B | B].
    + rewrite (spec_jump_height_fall t A B).
      destruct (Qlt_le_dec (1 # 2) t) as [C | C].
      * rewrite (spec_jump_height_rise (1 - t)) by lra. field.
      * assert (E : t == 1 # 2) by lra.
        rewrite (spec_jump_height_fall (1 - t)) by lra.
        rewrite E. reflexivity.
    + rewrite (spec_jump_height_landed t B).
      rewrite (spec_jump_height_rise (1 - t)) by lra.
      assert (E : t == 1) by lra. rewrite E. reflexivity.
Qed.

Lemma update_slide_jump (delta_time : Q) (e : GameEngine) :
  jumping (player (_update_slide delta_time e)) = jumping (player e) /\
  jump_height (player (_update_slide delta_time e)) = jump_height (player e) /\
  jump_timer (_update_slide delta_time e) = jump_timer e.
Proof.
  unfold _update_slide.
  destruct (sliding (player e)); [destruct (geb _ _)|];
    repeat split; reflexivity.
Qed.

(** One frame of the jump: the timer accumulates, the height is the
    profile at the new timer, and the player lands from one second on. *)
Lemma update_player_actions_jump (delta_time : Q) (e : GameEngine) :
  jumping (player e) = true ->
  let t := jump_timer e + delta_time in
  let a := _update_player_actions delta_time e in
  (t < 1 ->
   jumping (player a) = true /\ jump_timer a = t /\
   jump_height (player a) = spec_jump_height t) /\
  (1 <= t ->
   jumping (player a) = false /\ jump_timer a = 0 /\
   jump_height (player a) = 0).
Proof.
  intros J t a. subst a. unfold _update_player_actions.
  destruct (update_slide_jump delta_time (_update_jump delta_time e))
    as (-> & -> & ->).
  unfold _update_jump. rewrite J. cbv zeta. fold t.
  split; intros H.
  - unfold spec_jump_height.
    destruct (ltb t (1 # 2)).
    + cbn. now rewrite J.
    + apply ltb_lt in H. rewrite H. cbn. now rewrite J.
  - assert (H1 : 1 # 2 <= t) by lra.
    apply ltb_ge in H1. apply ltb_ge in H. rewrite H1, H.
    repeat split; reflexivity.
Qed.

Lemma update_player_actions_grounded (delta_time : Q) (e : GameEngine) :
  jumping (player e) = false ->
  let a := _update_player_actions delta_time e in
  jumping (player a) = false /\ jump_timer a = jump_timer e /\
  jump_height (player a) = jump_height (player e).
Proof.
  intros J a. subst a. unfold _update_player_actions.
  destruct (update_slide_jump delta_time (_update_jump delta_time e))
    as (-> & -> & ->).
  unfold _update_jump. rewrite J. repeat split; assumption || reflexivity.
Qed.

Lemma update_player_actions_jump_inv (delta_time : Q) (e : GameEngine) :
  0 <= delta_time -> jump_inv e ->
  jump_inv (_update_player_actions delta_time e).
Proof.
  intros T I. unfold jump_inv in *.
  destruct (jumping (player e)) eqn:J.
  - destruct I as (I0 & I1 & _).
    destruct (update_player_actions_jump delta_time e J) as [A B].
    destruct (Qlt_le_dec (jump_timer e + delta_time) 1) as [C | C].
    + destruct (A C) as (-> & -> & ->).
      split; [lra|]. split; [exact C|reflexivity].
    + destruct (B C) as (-> & -> & ->). split; reflexivity.
  - destruct (update_player_actions_grounded delta_time e J) as (-> & -> & ->).
    exact I.
Qed.

Lemma move_player_jump_inv (direction : string) (e : GameEngine) :
  jump_inv e -> jump_inv (engine_after (move_player direction e)).
Proof.
  intros I. unfold move_player.
  destruct (game_over (state e) || paused (state e)); [exact I|].
  destruct (String.eqb direction "left" && (0 <? lane (player e))%Z).
  { unfold jump_inv.
    destruct (snap_to_lane_frame
                (with_player (set_lane (lane (player e) - 1) (player e)) e))
      as (_ & _ & _ & -> & -> & ->).
    exact I. }
  destruct (String.eqb direction "right" && (lane (player e) <? 2)%Z).
  { unfold jump_inv.
    destruct (snap_to_lane_frame
                (with_player (set_lane (lane (player e) + 1) (player e)) e))
      as (_ & _ & _ & -> & -> & ->).
    exact I. }
  destruct (String.eqb direction "up" && negb (jumping (player e))) eqn:U.
  { apply andb_true_iff in U. destruct U as [_ U].
    apply negb_true_iff in U.
    unfold jump_inv in *. rewrite U in I. destruct I as [H _].
    cbn [engine_after player jump_timer with_jump_timer with_player
         set_jumping jumping jump_height].
    split; [apply Qle_refl|]. split; [reflexivity|].
    rewrite H. reflexivity. }
  destruct (String.eqb direction "down" && negb (sliding (player e)));
    exact I.
Qed.

Lemma step_jump_inv (o : Op) (e : GameEngine) :
  nonneg_time o -> jump_inv e -> jump_inv (engine_after (step o e)).
Proof.
  intros T I. destruct o as [dt rnd | d | | now]; cbn [step].
  - destruct (paused (state e)) eqn:P;
      [|destruct (game_over (state e)) eqn:G].
    + now rewrite update_game_stopped by auto.
    + now rewrite update_game_stopped by auto.
    + destruct (update_game_frame dt rnd e) as (os & cs & E & _);
        [now split|].
      rewrite E. cbn [engine_after].
      pose proof (update_player_actions_jump_inv dt e T I) as I'.
      unfold jump_inv in *.
      now rewrite frame_player, frame_jump_timer.
  - now apply move_player_jump_inv.
  - exact I.
  - cbn. split; reflexivity.
Qed.

Lemma reachable_jump_inv (e : GameEngine) : reachable e -> jump_inv e.
Proof.
  induction 1 as [now f blank | o e R IH T].
  - destruct f; cbn; split; reflexivity.
  - now apply step_jump_inv.
Qed.

End Jump.

(** * No call raises on a reachable engine *)

Section NoRaise.

Lemma index_lane (l : Z) :
  (0 <= l <= 2)%Z -> exists px, index LANE_POSITIONS l = Ok px.
Proof.
  intros H.
  assert (C : l = 0%Z \/ l = 1%Z \/ l = 2%Z) by lia.
  destruct C as [-> | [-> | ->]]; eexists; reflexivity.
Qed.

Lemma snap_to_lane_returns (e : GameEngine) :
  lane_inv e ->
  exists px,
    snap_to_lane e = Returns (with_player (set_player_x px (player e)) e).
Proof.
  intros H. unfold snap_to_lane.
  destruct (index_lane (lane (player e)) H) as [px ->]. now exists px.
Qed.

Lemma update_player_actions_lane (delta_time : Q) (e : GameEngine) :
  lane (player (_update_player_actions delta_time e)) = lane (player e).
Proof.
  unfold _update_player_actions, _update_slide, _update_jump.
  destruct (jumping (player e));
    [destruct (ltb (jump_timer e + delta_time) (1 # 2));
     [|destruct (ltb (jump_timer e + delta_time) 1)]|];
    cbn [player with_player with_jump_timer set_jump_height set_jumping
         sliding slide_timer];
    destruct (sliding (player e)); try destruct (geb _ _); reflexivity.
Qed.

(** A move returns, and the player stays in one of the three lanes. *)
Lemma move_player_returns (direction : string) (e : GameEngine) :
  lane_inv e ->
  exists e', move_player direction e = Returns e' /\ lane_inv e'.
Proof.
  intros H. unfold move_player.
  destruct (game_over (state e) || paused (state e)); [now exists e|].
  destruct (String.eqb direction "left" && (0 <? lane (player e))%Z) eqn:L.
  { apply andb_true_iff in L. destruct L as [_ L]. apply Z.ltb_lt in L.
    destruct (snap_to_lane_returns
                (with_player (set_lane (lane (player e) - 1) (player e)) e))
      as [px ->].
    - unfold lane_inv in *. cbn. lia.
    - eexists. split; [reflexivity|]. unfold lane_inv in *. cbn. lia. }
  destruct (String.eqb direction "right" && (lane (player e) <? 2)%Z) eqn:R.
  { apply andb_true_iff in R. destruct R as [_ R]. apply Z.ltb_lt in R.
    destruct (snap_to_lane_returns
                (with_player (set_lane (lane (player e) + 1) (player e)) e))
      as [px ->].
    - unfold lane_inv in *. cbn. lia.
    - eexists. split; [reflexivity|]. unfold lane_inv in *. cbn. lia. }
  destruct (String.eqb direction "up" && negb (jumping (player e)));
    [eexists; split; [reflexivity|exact H]|].
  destruct (String.eqb direction "down" && negb (sliding (player e)));
    eexists; split; reflexivity || exact H.
Qed.

Lemma step_returns (o : Op) (e : GameEngine) :
  lane_inv e -> exists e', step o e = Returns e' /\ lane_inv e'.
Proof.
  intros H. destruct o as [dt rnd | d | | now]; cbn [step].
  - destruct (paused (state e)) eqn:P;
      [|destruct (game_over (state e)) eqn:G].
    + rewrite update_game_stopped by auto. now exists e.
    + rewrite update_game_stopped by auto. now exists e.
    + destruct (update_game_frame dt rnd e) as (os & cs & E & _);
        [now split|].
      rewrite E. eexists. split; [reflexivity|].
      unfold lane_inv. rewrite frame_player, update_player_actions_lane.
      exact H.
  - now apply move_player_returns.
  - eexists. split; [reflexivity|exact H].
  - eexists. split; [reflexivity|]. unfold lane_inv. cbn. lia.
Qed.

Lemma reachable_lane_inv (e : GameEngine) : reachable e -> lane_inv e.
Proof.
  induction 1 as [now f blank | o e R IH T].
  - destruct f; unfold lane_inv; cbn; lia.
  - destruct (step_returns o e IH) as (e' & -> & H). exact H.
Qed.

(** On a reachable engine every call of the driver returns. *)
Lemma reachable_step_returns (o : Op) (e : GameEngine) :
  reachable e -> exists e', step o e = Returns e'.
Proof.
  intros R. destruct (step_returns o e (reachable_lane_inv e R)) as (e' & E & _).
  now exists e'.
Qed.

End NoRaise.

(** * Reset, pause and moves *)

(** C1.  [reset_game] puts the score board, the player, the objects and
    the timers back to their defaults, but the board it installs is a new
    [GameState()], so the high score is back to zero as well: a new
    engine that loaded 1200 from its score file shows 0 after a reset. *)
Theorem reset_game_forgets_high_score :
  (forall (now : Q) (e : GameEngine),
      let e' := reset_game now e in
      score (state e') = 0%Z /\ distance (state e') = 0%Z /\
      coins_collected (state e') = 0%Z /\ lives (state e') = 3%Z /\
      speed_multiplier (state e') = 1 /\
      game_over (state e') = false /\ paused (state e') = false /\
      high_score (state e') = 0%Z /\
      lane (player e') = 1%Z /\ jumping (player e') = false /\
      sliding (player e') = false /\ jump_height (player e') = 0 /\
      obstacles e' = [] /\ coins e' = [] /\
      slide_timer e' = 0 /\ jump_timer e' = 0) /\
  high_score (state Scenario.fresh) = 1200%Z /\
  high_score (state (engine_after (step (Reset 5) Scenario.fresh))) = 0%Z.
Proof.
  split; [|split]; [|reflexivity|reflexivity].
  intros now e e'. subst e'. cbn. repeat split.
Qed.

(** C10.  [pause_game] flips [paused], whatever the state of the game, and
    leaves every other field as it was. *)
Theorem pause_game_toggles (e : GameEngine) :
  let e' := pause_game e in
  paused (state e') = negb (paused (state e)) /\
  paused (state e') <> paused (state e) /\
  score (state e') = score (state e) /\
  distance (state e') = distance (state e) /\
  coins_collected (state e') = coins_collected (state e) /\
  lives (state e') = lives (state e) /\
  speed_multiplier (state e') = speed_multiplier (state e) /\
  game_over (state e') = game_over (state e) /\
  high_score (state e') = high_score (state e) /\
  player e' = player e /\ obstacles e' = obstacles e /\ coins e' = coins e /\
  last_update e' = last_update e /\
  slide_timer e' = slide_timer e /\ jump_timer e' = jump_timer e.
Proof.
  cbn. repeat split. destruct (paused (state e)); discriminate.
Qed.

(** C5.  While the engine is paused or the game is over, [update_game]
    and [move_player] return without an exception and leave the whole
    engine as it was. *)
Theorem stopped_engine_ignores_tick_and_move
        (e : GameEngine) (delta_time : Q) (rnd : Draws) (direction : string) :
  paused (state e) = true \/ game_over (state e) = true ->
  update_game delta_time rnd e = Returns e /\
  move_player direction e = Returns e.
Proof.
  intros H. split.
  - now apply update_game_stopped.
  - unfold move_player. now rewrite (not_running_flags e H).
Qed.

Lemma stopped_engine_ignores_tick_and_move_witness :
  update_game (1 # 60) Scenario.tree_and_coin Scenario.paused_engine
    = Returns Scenario.paused_engine /\
  move_player "left" Scenario.paused_engine = Returns Scenario.paused_engine.
Proof.
  apply (stopped_engine_ignores_tick_and_move
           Scenario.paused_engine (1 # 60) Scenario.tree_and_coin "left").
  left. reflexivity.
Defined.

(** C9.  A direction that is none of "left", "right", "up" and "down" makes
    [move_player] return without an exception and without touching the
    engine. *)
Theorem unknown_direction_is_ignored (direction : string) (e : GameEngine) :
  direction <> "left"%string -> direction <> "right"%string ->
  direction <> "up"%string -> direction <> "down"%string ->
  move_player direction e = Returns e.
Proof.
  intros L R U D. unfold move_player.
  apply String.eqb_neq in L, R, U, D. rewrite L, R, U, D. cbn [andb].
  now destruct (game_over (state e) || paused (state e)).
Qed.

Lemma unknown_direction_is_ignored_witness :
  move_player "sideways" Scenario.fresh = Returns Scenario.fresh.
Proof.
  apply (unknown_direction_is_ignored "sideways" Scenario.fresh);
    discriminate.
Defined.

(** * Lives and the end of the game *)

(** C2, as stated, fails: the player steps into a lane where four trees
    come down in a row; all four are resolved in the same frame, each one
    takes a life, and the engine is left with [lives = -1]. *)
Lemma lives_below_zero_is_reachable :
  reachable (run Scenario.into_the_trees Scenario.fresh) /\
  lives (state (run Scenario.into_the_trees Scenario.fresh)) = (-1)%Z /\
  game_over (state (run Scenario.into_the_trees Scenario.fresh)) = true.
Proof.
  split; [|split]; [|vm_compute; reflexivity|vm_compute; reflexivity].
  apply reachable_run.
  - apply reach_new.
  - unfold Scenario.into_the_trees. cbn [repeat app]. nonneg_ops.
Qed.

(** C2, amended.  In every reachable engine [lives] is at most 3 and the
    game is over exactly when [lives <= 0], so at least one life is left
    while the game goes on.  A hit takes exactly one life, and on a board
    with the lives and the flag of a reachable engine whose game is not
    over it ends the game exactly when it takes the last life (from 1 to
    0); from three lives that is the third hit.  Hits resolved later in
    the same frame still take a life each. *)
Theorem lives_and_game_over (e : GameEngine) :
  reachable e ->
  (lives (state e) <= 3)%Z /\
  (game_over (state e) = true <-> (lives (state e) <= 0)%Z) /\
  (forall s : GameState,
      lives s = lives (state e) -> game_over s = game_over (state e) ->
      lives (_handle_collision s) = (lives s - 1)%Z /\
      (game_over s = false ->
       (game_over (_handle_collision s) = true <-> lives s = 1%Z)) /\
      (lives s = 3%Z ->
       game_over (_handle_collision s) = false /\
       game_over (_handle_collision (_handle_collision s)) = false /\
       game_over (_handle_collision (_handle_collision (_handle_collision s)))
         = true)).
Proof.
  intros R. destruct (reachable_state_inv e R) as [[L G] _].
  split; [exact L|]. split; [exact G|].
  intros s Ls Gs.
  assert (I : lives_inv s) by (unfold lives_inv; rewrite Ls, Gs; now split).
  pose proof (handle_collision_lives_inv s I) as I1.
  pose proof (handle_collision_lives_inv _ I1) as I2.
  pose proof (handle_collision_lives_inv _ I2) as I3.
  destruct (handle_collision_frame s) as (H1 & _).
  destruct (handle_collision_frame (_handle_collision s)) as (H2 & _).
  destruct (handle_collision_frame (_handle_collision (_handle_collision s)))
    as (H3 & _).
  destruct I as [_ I], I1 as [_ I1], I2 as [_ I2], I3 as [_ I3].
  split; [exact H1|]. split.
  - intros F. rewrite I1, H1. split; intros H; [|lia].
    assert (0 < lives s)%Z; [|lia].
    destruct (Z.lt_ge_cases 0 (lives s)) as [|N]; [assumption|].
    apply I in N. congruence.
  - intros T. repeat split.
    + apply not_true_is_false. rewrite I1. lia.
    + apply not_true_is_false. rewrite I2. lia.
    + apply I3. lia.
Qed.

Lemma lives_and_game_over_witness :
  (lives (state Scenario.fresh) <= 3)%Z /\
  (game_over (state Scenario.fresh) = true <->
   (lives (state Scenario.fresh) <= 0)%Z) /\
  (forall s : GameState,
      lives s = lives (state Scenario.fresh) ->
      game_over s = game_over (state Scenario.fresh) ->
      lives (_handle_collision s) = (lives s - 1)%Z /\
      (game_over s = false ->
       (game_over (_handle_collision s) = true <-> lives s = 1%Z)) /\
      (lives s = 3%Z ->
       game_over (_handle_collision s) = false /\
       game_over (_handle_collision (_handle_collision s)) = false /\
       game_over (_handle_collision (_handle_collision (_handle_collision s)))
         = true)).
Proof.
  apply (lives_and_game_over Scenario.fresh).
  apply reach_new.
Defined.

(** * The speed multiplier *)

Section Speed.

Lemma min3_is_clamp (d : Z) :
  (0 <= d)%Z ->
  min 3 (1 + inject_Z d / 10000) == spec_speed_multiplier d.
Proof.
  intros H. apply inject_Z_div_nonneg in H.
  unfold spec_speed_multiplier, spec_clamp.
  destruct (ltb (1 + inject_Z d / 10000) 1) eqn:A.
  - apply ltb_lt in A. lra.
  - destruct (min_case 3 (1 + inject_Z d / 10000)) as [[B ->] | [B ->]].
    + assert (C : ltb 3 (1 + inject_Z d / 10000) = false)
        by (apply ltb_ge; lra).
      rewrite C. reflexivity.
    + destruct (ltb 3 (1 + inject_Z d / 10000)) eqn:C; [reflexivity|].
      apply ltb_ge in C. lra.
Qed.

Lemma speed_inv_values (s : GameState) :
  speed_inv s ->
  speed_multiplier s == spec_speed_multiplier (distance s) /\
  (distance s = 0%Z -> speed_multiplier s == 1) /\
  (distance s = 5000%Z -> speed_multiplier s == 3 # 2) /\
  ((20000 <= distance s)%Z -> speed_multiplier s == 3).
Proof.
  intros [D M]. split; [|split; [|split]].
  - rewrite M. now apply min3_is_clamp.
  - intros E. rewrite M, E. reflexivity.
  - intros E. rewrite M, E. reflexivity.
  - intros E. rewrite M. apply inject_Z_div_le in E.
    assert (F : 2 <= inject_Z (distance s) / 10000)
      by (apply Qle_trans with (inject_Z 20000 / 10000);
          [discriminate|exact E]).
    destruct (min_case 3 (1 + inject_Z (distance s) / 10000))
      as [[B ->] | [B ->]]; lra.
Qed.

Lemma step_multiplier (o : Op) (e : GameEngine) :
  nonneg_time o -> not_reset o -> speed_inv (state e) ->
  speed_multiplier (state e) <=
    speed_multiplier (state (engine_after (step o e))).
Proof.
  intros T N I. destruct o as [dt rnd | d | | now]; cbn [step].
  - destruct (paused (state e)) eqn:P;
      [|destruct (game_over (state e)) eqn:G].
    + rewrite update_game_stopped by auto. apply Qle_refl.
    + rewrite update_game_stopped by auto. apply Qle_refl.
    + destruct (update_game_frame dt rnd e) as (os & cs & E & _);
        [now split|].
      rewrite E. cbn [engine_after]. now apply frame_speed_inv.
  - destruct (move_player_frame d e) as (-> & _). apply Qle_refl.
  - apply Qle_refl.
  - contradiction.
Qed.

Lemma run_multiplier (ops : list Op) (e : GameEngine) :
  reachable e -> Forall nonneg_time ops -> Forall not_reset ops ->
  speed_multiplier (state e) <= speed_multiplier (state (run ops e)).
Proof.
  revert e. induction ops as [|o ops IH]; intros e R T N.
  - apply Qle_refl.
  - inversion T; subst. inversion N; subst. cbn [run].
    apply Qle_trans
      with (speed_multiplier (state (engine_after (step o e)))).
    + apply step_multiplier; try assumption.
      now apply reachable_state_inv.
    + apply IH; try assumption. now apply reach_step.
Qed.

End Speed.

(** C8.  After any frames with [delta_time >= 0], moves and pauses run
    from a reachable engine, the multiplier is
    [clamp(1 + distance/10000, 1, 3)], it is not below what it was before
    them, and it is 1 at distance 0, 1.5 at distance 5000 and 3 from
    distance 20000 on; the scoring step of the next frame establishes the
    same equation again and does not lower the multiplier. *)
Theorem speed_multiplier_is_clamped (e : GameEngine) (ops : list Op) :
  reachable e ->
  Forall nonneg_time ops ->
  Forall not_reset ops ->
  let e' := run ops e in
  speed_multiplier (state e') == spec_speed_multiplier (distance (state e')) /\
  speed_multiplier (state e) <= speed_multiplier (state e') /\
  (distance (state e') = 0%Z -> speed_multiplier (state e') == 1) /\
  (distance (state e') = 5000%Z -> speed_multiplier (state e') == 3 # 2) /\
  ((20000 <= distance (state e'))%Z -> speed_multiplier (state e') == 3) /\
  (forall delta_time : Q,
      0 <= delta_time ->
      let s := advance_score delta_time (state e') in
      speed_multiplier s == spec_speed_multiplier (distance s) /\
      speed_multiplier (state e') <= speed_multiplier s).
Proof.
  intros R T N e'.
  assert (R' : reachable e') by now apply reachable_run.
  destruct (reachable_state_inv e' R') as [_ I].
  destruct (speed_inv_values (state e') I) as (V & V0 & V1 & V2).
  split; [exact V|]. split; [now apply run_multiplier|].
  split; [exact V0|]. split; [exact V1|]. split; [exact V2|].
  intros dt D s.
  destruct (advance_score_speed dt (state e') D I) as (I' & _ & L).
  split; [now apply speed_inv_values|exact L].
Qed.

Lemma speed_multiplier_is_clamped_witness :
  let e' := run [Tick (1 # 20) Scenario.quiet; Move "left";
                 Tick 60 Scenario.tree_left]
                Scenario.fresh in
  distance (state e') = 6008%Z /\
  speed_multiplier (state e') == spec_speed_multiplier (distance (state e')) /\
  speed_multiplier (state Scenario.fresh) <= speed_multiplier (state e').
Proof.
  intros e'.
  destruct (speed_multiplier_is_clamped
              Scenario.fresh
              [Tick (1 # 20) Scenario.quiet; Move "left";
               Tick 60 Scenario.tree_left])
    as (A & B & _).
  - apply reach_new.
  - nonneg_ops.
  - repeat (apply Forall_cons; [exact I|]). apply Forall_nil.
  - split; [vm_compute; reflexivity|]. split; [exact A|exact B].
Defined.

(** * The jump profile *)

(** C6.  On a reachable, running engine: "up" starts a jump when the
    player is on the ground; while the player is in the air the height is
    the triangular profile at the jump timer, which stays below one
    second; a frame adds [delta_time] to the timer and sets the height to
    the profile at the new timer, or, once the timer reaches one second,
    lands the player with height and timer zero.  The profile is
    [80 * (t / 0.5)] below half a second and
    [80 * (1 - (t - 0.5) / 0.5)] from there to one second, it peaks at 80
    at half a second and is symmetric about that point. *)
Theorem jump_follows_triangular_profile (e : GameEngine) :
  reachable e -> running e ->
  (jumping (player e) = false ->
   exists e', move_player "up" e = Returns e' /\
              jumping (player e') = true /\ jump_timer e' = 0 /\
              jump_height (player e') == spec_jump_height 0) /\
  (jumping (player e) = true ->
   jump_timer e < 1 /\
   jump_height (player e) == spec_jump_height (jump_timer e)) /\
  (forall (delta_time : Q) (rnd : Draws),
      0 <= delta_time -> jumping (player e) = true ->
      exists e', update_game delta_time rnd e = Returns e' /\
        let t := jump_timer e + delta_time in
        (t < 1 ->
         jumping (player e') = true /\ jump_timer e' = t /\
         jump_height (player e') = spec_jump_height t) /\
        (1 <= t ->
         jumping (player e') = false /\ jump_timer e' = 0 /\
         jump_height (player e') = 0)) /\
  (forall t : Q, t < 1 # 2 -> spec_jump_height t = 80 * (t / (1 # 2))) /\
  (forall t : Q, 1 # 2 <= t -> t < 1 ->
                 spec_jump_height t = 80 * (1 - (t - (1 # 2)) / (1 # 2))) /\
  spec_jump_height (1 # 2) == 80 /\
  (forall t : Q, 0 <= t -> t <= 1 ->
                 spec_jump_height t == spec_jump_height (1 - t)).
Proof.
  intros R Run. pose proof (reachable_jump_inv e R) as I.
  split; [|split; [|split; [|split; [|split; [|split]]]]].
  - intros J. unfold move_player. rewrite (running_flags e Run).
    rewrite J. cbn [String.eqb Ascii.eqb Bool.eqb andb negb].
    eexists. split; [reflexivity|].
    unfold jump_inv in I. rewrite J in I. destruct I as [H _].
    cbn. repeat split. rewrite H. reflexivity.
  - intros J. unfold jump_inv in I. rewrite J in I. tauto.
  - intros dt rnd T J.
    destruct (update_game_frame dt rnd e Run) as (os & cs & E & _).
    exists (frame os cs dt e). split; [exact E|].
    cbv zeta. rewrite frame_player, frame_jump_timer.
    exact (update_player_actions_jump dt e J).
  - exact spec_jump_height_rise.
  - exact spec_jump_height_fall.
  - reflexivity.
  - exact spec_jump_height_symmetric.
Qed.

Lemma jump_follows_triangular_profile_witness :
  jumping (player Scenario.jumper) = true /\
  jump_timer Scenario.jumper < 1 /\
  jump_height (player Scenario.jumper)
    == spec_jump_height (jump_timer Scenario.jumper) /\
  exists e', update_game (1 # 4) Scenario.quiet Scenario.jumper = Returns e' /\
             jump_height (player e') = spec_jump_height ((1 # 4) + (1 # 4)).
Proof.
  assert (R : reachable Scenario.jumper).
  { apply reachable_run; [apply reach_new|].
    repeat (apply Forall_cons; [first [exact I | discriminate]|]).
    apply Forall_nil. }
  assert (Run : running Scenario.jumper) by (split; reflexivity).
  destruct (jump_follows_triangular_profile Scenario.jumper R Run)
    as (_ & A & B & _).
  split; [reflexivity|].
  destruct (A eq_refl) as [A1 A2].
  split; [exact A1|]. split; [exact A2|].
  destruct (B (1 # 4) Scenario.quiet ltac:(discriminate) eq_refl)
    as (e' & E & F & _).
  exists e'. split; [exact E|].
  destruct F as (_ & T & H); [reflexivity|].
  rewrite H. reflexivity.
Defined.

(** * Resolved objects and the cleanup *)

Section Cleanup.



End Cleanup.


(** * Collision resolution *)

Section Resolution.

Variable e : GameEngine.

Lemma check_collisions_obstacles :
  obstacles (_check_collisions e) =
  map (resolved (_get_player_rect e)) (obstacles e).
Proof. now rewrite check_collisions_eq. Qed.

Lemma check_collisions_coins :
  coins (_check_collisions e) = map (picked (_get_player_rect e)) (coins e).
Proof. now rewrite check_collisions_eq. Qed.

(** The board after both loops: a life for every hit, a coin and fifty
    points for every coin picked up. *)
Lemma check_collisions_board :
  let rect := _get_player_rect e in
  lives (state (_check_collisions e)) =
    (lives (state e) - count (hits (player e) rect) (obstacles e))%Z /\
  coins_collected (state (_check_collisions e)) =
    (coins_collected (state e) + count (picks_up rect) (coins e))%Z /\
  score (state (_check_collisions e)) =
    (score (state e) + 50 * count (picks_up rect) (coins e))%Z.
Proof.
  cbv zeta. rewrite check_collisions_eq. cbv zeta.
  cbn [state with_coins with_obstacles with_state].
  set (rect := _get_player_rect e).
  destruct (collide_coins_fst rect (coins e)
              (fst (collide_obstacles (player e) rect (state e) (obstacles e))))
    as (C & S & L & _).
  destruct (collide_obstacles_fst (player e) rect (obstacles e) (state e))
    as (L' & S' & _ & C' & _).
  rewrite C, S, L, L', S', C'. repeat split.
Qed.

End Resolution.

(** C4.  In the collision loop an active obstacle that overlaps the
    player's rectangle is deactivated whatever its kind; a pit takes one
    life unless the player is jumping, a tree or a rock takes one life
    unless the player is sliding; the loop as a whole takes one life for
    each obstacle that hits.  Once deactivated, the obstacle is skipped by
    the loop for any player and any position, so it never takes a second
    life. *)
Theorem obstacle_collision_resolution (e : GameEngine) (o : Obstacle) :
  In o (obstacles e) ->
  o_active o = true ->
  _rects_collide (_get_player_rect e) (obstacle_rect o) = true ->
  let p := player e in
  let rect := _get_player_rect e in
  (forall s : GameState,
      (obstacle_type o = "pit"%string ->
       collide_obstacle p rect s o =
       ((if jumping p then s else _handle_collision s), deactivate o)) /\
      (obstacle_type o = "tree"%string \/ obstacle_type o = "rock"%string ->
       collide_obstacle p rect s o =
       ((if sliding p then s else _handle_collision s), deactivate o)) /\
      snd (collide_obstacle p rect s o) = deactivate o /\
      lives (_handle_collision s) = (lives s - 1)%Z) /\
  o_active (deactivate o) = false /\
  In (deactivate o) (obstacles (_check_collisions e)) /\
  lives (state (_check_collisions e)) =
    (lives (state e) - count (hits p rect) (obstacles e))%Z /\
  (forall (p2 : Player) (rect2 : Rect) (s2 : GameState) (dy : Q),
      collide_obstacle p2 rect2 s2 (move_obstacle dy (deactivate o)) =
      (s2, move_obstacle dy (deactivate o))).
Proof.
  intros H A C. cbv zeta.
  split; [|split; [|split; [|split]]].
  - intros s. unfold collide_obstacle. rewrite A, C.
    cbn [negb]. unfold is_hit.
    split; [|split; [|split]].
    + intros ->. cbn [String.eqb Ascii.eqb Bool.eqb andb orb].
      destruct (jumping (player e)); cbn [negb]; [|reflexivity].
      now destruct (sliding (player e)).
    + intros [-> | ->]; cbn [String.eqb Ascii.eqb Bool.eqb andb orb];
        now destruct (sliding (player e)).
    + reflexivity.
    + apply handle_collision_frame.
  - reflexivity.
  - rewrite check_collisions_obstacles. apply in_map_iff. exists o.
    split; [|exact H].
    unfold resolved, resolves. now rewrite A, C.
  - apply check_collisions_board.
  - reflexivity.
Qed.

Lemma obstacle_collision_resolution_witness :
  let e := with_obstacles [Scenario.pit_on_player] Scenario.fresh in
  collide_obstacle (player e) (_get_player_rect e) (state e)
                   Scenario.pit_on_player
    = (_handle_collision (state e), deactivate Scenario.pit_on_player) /\
  lives (state (_check_collisions e)) = 2%Z.
Proof.
  intros e.
  destruct (obstacle_collision_resolution e Scenario.pit_on_player)
    as (A & _ & _ & L & _).
  - left. reflexivity.
  - reflexivity.
  - vm_compute. reflexivity.
  - split.
    + destruct (A (state e)) as (P & _). exact (P eq_refl).
    + rewrite L. vm_compute. reflexivity.
Defined.

(** C7.  In the collision loop a coin that is not yet collected and
    overlaps the player's rectangle is marked collected, adds 1 to
    [coins_collected] and 50 to [score]; the loop as a whole adds that for
    each such coin.  Once collected, the coin is skipped by the loop for
    any player rectangle and any position, so it is never collected
    again. *)
Theorem coin_collection (e : GameEngine) (c : Coin) :
  In c (coins e) ->
  collected c = false ->
  _rects_collide (_get_player_rect e) (coin_rect c) = true ->
  let rect := _get_player_rect e in
  (forall s : GameState,
      let s' := fst (collide_coin rect s c) in
      snd (collide_coin rect s c) = collect c /\
      coins_collected s' = (coins_collected s + 1)%Z /\
      score s' = (score s + 50)%Z /\
      lives s' = lives s /\ distance s' = distance s /\
      game_over s' = game_over s) /\
  collected (collect c) = true /\
  In (collect c) (coins (_check_collisions e)) /\
  coins_collected (state (_check_collisions e)) =
    (coins_collected (state e) + count (picks_up rect) (coins e))%Z /\
  score (state (_check_collisions e)) =
    (score (state e) + 50 * count (picks_up rect) (coins e))%Z /\
  (1 <= count (picks_up rect) (coins e))%Z /\
  (forall (rect2 : Rect) (s2 : GameState) (dy : Q),
      collide_coin rect2 s2 (move_coin dy (collect c)) =
      (s2, move_coin dy (collect c))).
Proof.
  intros H A C. cbv zeta.
  destruct (check_collisions_board e) as (_ & CC & SC).
  split; [|split; [|split; [|split; [|split; [|split]]]]].
  - intros s. unfold collide_coin. rewrite A, C.
    cbn [fst snd score coins_collected lives distance game_over
         set_score set_coins_collected].
    repeat split.
  - reflexivity.
  - rewrite check_collisions_coins. apply in_map_iff. exists c.
    split; [|exact H].
    unfold picked, picks_up. now rewrite A, C.
  - exact CC.
  - exact SC.
  - unfold count.
    assert (I : In c (filter (picks_up (_get_player_rect e)) (coins e))).
    { apply filter_In. split; [exact H|].
      unfold picks_up. now rewrite A, C. }
    destruct (filter (picks_up (_get_player_rect e)) (coins e));
      [contradiction|].
    cbn [length]. lia.
  - reflexivity.
Qed.

Lemma coin_collection_witness :
  let e := with_coins [Scenario.coin_on_player] Scenario.fresh in
  coins_collected (state (_check_collisions e)) = 1%Z /\
  score (state (_check_collisions e)) = 50%Z /\
  collide_coin (_get_player_rect e) (state (_check_collisions e))
               (collect Scenario.coin_on_player)
    = (state (_check_collisions e), collect Scenario.coin_on_player).
Proof.
  intros e.
  destruct (coin_collection e Scenario.coin_on_player)
    as (_ & _ & _ & CC & SC & _ & N).
  - left. reflexivity.
  - reflexivity.
  - vm_compute. reflexivity.
  - split; [|split].
    + rewrite CC. vm_compute. reflexivity.
    + rewrite SC. vm_compute. reflexivity.
    + reflexivity.
Defined.

(** * A frame of a running engine, exactly *)

Section RunningFrame.

Variables (delta_time : Q) (rnd : Draws).
Variable e : GameEngine.

Lemma index_lane_position (d : LaneDraw) :
  index LANE_POSITIONS (randint_0_2 d) = Ok (lane_position d).
Proof. destruct d; reflexivity. Qed.

Lemma spawn_obstacles_eq (e0 : GameEngine) :
  _spawn_obstacles rnd e0 =
  Returns (with_obstacles
             (obstacles e0 ++ spawned_obstacles rnd (speed_multiplier (state e0)))
             e0).
Proof.
  unfold _spawn_obstacles, spawned_obstacles.
  destruct (ltb (obstacle_roll rnd) _).
  - cbv zeta. rewrite index_lane_position. reflexivity.
  - rewrite app_nil_r. unfold with_obstacles. now rewrite engine_eta.
Qed.

Lemma spawn_coins_eq (e0 : GameEngine) :
  _spawn_coins rnd e0 =
  Returns (with_coins (coins e0 ++ spawned_coins rnd) e0).
Proof.
  unfold _spawn_coins, spawned_coins.
  destruct (ltb (coin_roll rnd) COIN_SPAWN_RATE).
  - cbv zeta. rewrite index_lane_position. reflexivity.
  - rewrite app_nil_r. unfold with_coins. now rewrite engine_eta.
Qed.

(** The frame of a running engine is [frame] for the objects drawn. *)
Lemma update_game_running :
  running e ->
  update_game delta_time rnd e =
  Returns (frame (spawned_obstacles rnd
                    (speed_multiplier (advance_score delta_time (state e))))
                 (spawned_coins rnd) delta_time e).
Proof.
  intros R. unfold update_game. rewrite (running_flags e R). cbv zeta.
  rewrite spawn_obstacles_eq. cbn [and_then].
  rewrite spawn_coins_eq. cbn [and_then].
  destruct (update_player_actions_frame delta_time
              (with_state (advance_score delta_time (state e)) e))
    as (S & _).
  rewrite S. reflexivity.
Qed.

(** [update_game] returns on every engine. *)
Lemma update_game_returns :
  exists e', update_game delta_time rnd e = Returns e'.
Proof.
  destruct (paused (state e)) eqn:P; [|destruct (game_over (state e)) eqn:G].
  - exists e. apply update_game_stopped. now left.
  - exists e. apply update_game_stopped. now right.
  - eexists. apply update_game_running. now split.
Qed.

Lemma frame_slide_timer (os : list Obstacle) (cs : list Coin) :
  slide_timer (frame os cs delta_time e) =
  slide_timer (_update_player_actions delta_time e).
Proof.
  unfold frame. rewrite update_player_actions_with_state. cbv zeta.
  unfold _cleanup_objects. rewrite check_collisions_eq. cbv zeta.
  reflexivity.
Qed.

Lemma frame_last_update (os : list Obstacle) (cs : list Coin) :
  last_update (frame os cs delta_time e) = last_update e.
Proof.
  unfold frame. rewrite update_player_actions_with_state. cbv zeta.
  unfold _cleanup_objects. rewrite check_collisions_eq. cbv zeta.
  cbn [last_update with_state with_player with_obstacles with_coins
       _update_coins _update_obstacles].
  now destruct (update_player_actions_frame delta_time e) as (_ & _ & _ & L).
Qed.

End RunningFrame.

(** * The player, the slide and the stored objects on reachable engines *)

Section MoreInvariants.

Lemma update_player_actions_body (delta_time : Q) (e : GameEngine) :
  let a := _update_player_actions delta_time e in
  p_position (player a) = p_position (player e) /\
  p_width (player a) = p_width (player e) /\
  p_height (player a) = p_height (player e) /\
  p_active (player a) = p_active (player e).
Proof.
  cbv zeta. unfold _update_player_actions, _update_slide, _update_jump.
  destruct (jumping (player e));
    [destruct (ltb (jump_timer e + delta_time) (1 # 2));
     [|destruct (ltb (jump_timer e + delta_time) 1)]|];
    cbn [player with_player with_jump_timer set_jump_height set_jumping
         sliding slide_timer];
    destruct (sliding (player e)); try destruct (geb _ _);
    repeat split; reflexivity.
Qed.

Lemma update_jump_slide (delta_time : Q) (e : GameEngine) :
  sliding (player (_update_jump delta_time e)) = sliding (player e) /\
  slide_timer (_update_jump delta_time e) = slide_timer e.
Proof.
  unfold _update_jump.
  destruct (jumping (player e));
    [destruct (ltb (jump_timer e + delta_time) (1 # 2));
     [|destruct (ltb (jump_timer e + delta_time) 1)]|];
    split; reflexivity.
Qed.

(** One frame of the slide: the timer accumulates, and the slide ends
    once it reaches [SLIDE_DURATION]. *)
Lemma update_player_actions_slide (delta_time : Q) (e : GameEngine) :
  sliding (player e) = true ->
  let t := slide_timer e + delta_time in
  let a := _update_player_actions delta_time e in
  (t < 1 -> sliding (player a) = true /\ slide_timer a = t) /\
  (1 <= t -> sliding (player a) = false /\ slide_timer a = 0).
Proof.
  intros S t a. subst a. unfold _update_player_actions, _update_slide.
  destruct (update_jump_slide delta_time e) as (-> & ->).
  rewrite S. cbv zeta. fold t.
  split; intros H.
  - assert (G : geb t SLIDE_DURATION = false).
    { apply not_true_is_false. intros G. apply geb_le in G.
      unfold SLIDE_DURATION in G. lra. }
    rewrite G. cbn [player sliding slide_timer with_slide_timer].
    destruct (update_jump_slide delta_time e) as (-> & _). now split.
  - assert (G : geb t SLIDE_DURATION = true) by (apply geb_le; exact H).
    rewrite G. split; reflexivity.
Qed.

Lemma update_player_actions_not_sliding (delta_time : Q) (e : GameEngine) :
  sliding (player e) = false ->
  let a := _update_player_actions delta_time e in
  sliding (player a) = false /\ slide_timer a = slide_timer e.
Proof.
  intros S a. subst a. unfold _update_player_actions, _update_slide.
  destruct (update_jump_slide delta_time e) as (E1 & E2).
  rewrite E1, S. split; [exact (eq_trans E1 S)|exact E2].
Qed.

Lemma update_player_actions_slide_inv (delta_time : Q) (e : GameEngine) :
  0 <= delta_time -> slide_inv e ->
  slide_inv (_update_player_actions delta_time e).
Proof.
  intros T I. unfold slide_inv in *.
  destruct (sliding (player e)) eqn:S.
  - destruct I as (I0 & I1).
    destruct (update_player_actions_slide delta_time e S) as [A B].
    destruct (Qlt_le_dec (slide_timer e + delta_time) 1) as [C | C].
    + destruct (A C) as (-> & ->). split; [lra|exact C].
    + destruct (B C) as (-> & ->). reflexivity.
  - destruct (update_player_actions_not_sliding delta_time e S) as (-> & ->).
    exact I.
Qed.

Lemma snap_to_lane_player (e : GameEngine) :
  lane_inv e ->
  exists px,
    index LANE_POSITIONS (lane (player e)) = Ok px /\
    engine_after (snap_to_lane e) = with_player (set_player_x px (player e)) e.
Proof.
  intros H. unfold snap_to_lane.
  destruct (index_lane (lane (player e)) H) as [px E]. rewrite E.
  now exists px.
Qed.

Lemma move_player_more_inv (direction : string) (e : GameEngine) :
  lane_inv e -> player_inv e /\ slide_inv e ->
  player_inv (engine_after (move_player direction e)) /\
  slide_inv (engine_after (move_player direction e)).
Proof.
  intros L [P S]. unfold move_player.
  destruct (game_over (state e) || paused (state e)); [now split|].
  destruct P as (PX & PY & PW & PH & PA).
  destruct (String.eqb direction "left" && (0 <? lane (player e))%Z) eqn:A.
  { apply andb_true_iff in A. destruct A as [_ A]. apply Z.ltb_lt in A.
    destruct (snap_to_lane_player
                (with_player (set_lane (lane (player e) - 1) (player e)) e))
      as (px & E & ->).
    - unfold lane_inv in *. cbn. lia.
    - split; [|exact S]. unfold player_inv. cbn. cbn in E. now repeat split. }
  destruct (String.eqb direction "right" && (lane (player e) <? 2)%Z) eqn:B.
  { apply andb_true_iff in B. destruct B as [_ B]. apply Z.ltb_lt in B.
    destruct (snap_to_lane_player
                (with_player (set_lane (lane (player e) + 1) (player e)) e))
      as (px & E & ->).
    - unfold lane_inv in *. cbn. lia.
    - split; [|exact S]. unfold player_inv. cbn. cbn in E. now repeat split. }
  destruct (String.eqb direction "up" && negb (jumping (player e))).
  { split; [now repeat split|exact S]. }
  destruct (String.eqb direction "down" && negb (sliding (player e))) eqn:D.
  { split; [now repeat split|].
    unfold slide_inv. cbn. split; [apply Qle_refl|reflexivity]. }
  now split; [repeat split|].
Qed.

Lemma step_more_inv (o : Op) (e : GameEngine) :
  nonneg_time o -> lane_inv e -> player_inv e /\ slide_inv e ->
  player_inv (engine_after (step o e)) /\ slide_inv (engine_after (step o e)).
Proof.
  intros T L [P S]. destruct o as [dt rnd | d | | now]; cbn [step].
  - destruct (paused (state e)) eqn:Pa;
      [|destruct (game_over (state e)) eqn:G].
    + rewrite update_game_stopped by auto. now split.
    + rewrite update_game_stopped by auto. now split.
    + rewrite update_game_running by now split. cbn [engine_after]. split.
      * unfold player_inv in *. rewrite frame_player.
        rewrite update_player_actions_lane.
        destruct (update_player_actions_body dt e) as (-> & -> & -> & ->).
        exact P.
      * pose proof (update_player_actions_slide_inv dt e T S) as S'.
        unfold slide_inv in *. now rewrite frame_player, frame_slide_timer.
  - now apply move_player_more_inv.
  - now split.
  - split; [now repeat split|]. unfold slide_inv. cbn. reflexivity.
Qed.

Lemma reachable_more_inv (e : GameEngine) :
  reachable e -> player_inv e /\ slide_inv e.
Proof.
  induction 1 as [now f blank | o e R IH T].
  - destruct f; (split; [now repeat split|]); unfold slide_inv; cbn;
      reflexivity.
  - apply step_more_inv; try assumption. now apply reachable_lane_inv.
Qed.

End MoreInvariants.

Section StorageInvariant.

Lemma scroll_bounds (delta_time : Q) (e : GameEngine) :
  0 <= delta_time -> speed_inv (state e) ->
  300 * delta_time <= scroll delta_time e /\
  scroll delta_time e <= 900 * delta_time.
Proof.
  intros T I.
  destruct (advance_score_speed delta_time (state e) T I) as (I' & _).
  apply speed_inv_bounds in I'. unfold scroll.
  set (m := speed_multiplier (advance_score delta_time (state e))) in *.
  destruct I' as [M1 M3]. split.
  - assert (H : 0 <= (m - 1) * delta_time)
      by (apply Qmult_le_0_compat; lra).
    lra.
  - assert (H : 0 <= (3 - m) * delta_time)
      by (apply Qmult_le_0_compat; lra).
    lra.
Qed.

Lemma resolved_wf (rect : Rect) (dy : Q) (o : Obstacle) :
  obstacle_wf o -> 0 <= dy ->
  pos_y (o_position (move_obstacle dy o)) < 600 ->
  obstacle_wf (resolved rect (move_obstacle dy o)).
Proof.
  intros (W & H & L & X & K & Y0 & Y1) D Y.
  assert (M : obstacle_wf (move_obstacle dy o)).
  { unfold obstacle_wf. cbn in *. repeat split; try assumption; try lia.
    lra. }
  unfold resolved. destruct (resolves rect (move_obstacle dy o)); [|exact M].
  exact M.
Qed.

Lemma picked_wf (rect : Rect) (dy : Q) (c : Coin) :
  coin_wf c -> 0 <= dy ->
  pos_y (c_position (move_coin dy c)) < 600 ->
  coin_wf (picked rect (move_coin dy c)).
Proof.
  intros (W & H & A & X & Y0 & Y1) D Y.
  assert (M : coin_wf (move_coin dy c)).
  { unfold coin_wf. cbn in *. repeat split; try assumption. lra. }
  unfold picked. destruct (picks_up rect (move_coin dy c)); exact M.
Qed.

Lemma spawned_obstacles_wf (rnd : Draws) (m : Q) :
  Forall obstacle_wf (spawned_obstacles rnd m).
Proof.
  unfold spawned_obstacles. destruct (ltb _ _); [|constructor].
  constructor; [|constructor].
  unfold obstacle_wf. cbn [o_width o_height o_lane o_position obstacle_type
                           pos_x pos_y].
  rewrite index_lane_position.
  repeat split; try reflexivity.
  - destruct (obstacle_lane rnd); cbn; lia.
  - destruct (obstacle_lane rnd); cbn; lia.
  - destruct (obstacle_kind rnd); cbn; auto.
  - apply Qle_refl.
Qed.

Lemma spawned_coins_wf (rnd : Draws) : Forall coin_wf (spawned_coins rnd).
Proof.
  unfold spawned_coins. destruct (ltb _ _); [|constructor].
  constructor; [|constructor].
  unfold coin_wf. cbn [c_width c_height c_active c_position pos_x pos_y].
  repeat split; try reflexivity.
  - destruct (coin_lane rnd); cbn; auto.
  - apply Qle_refl.
Qed.

Lemma frame_storage_inv (os : list Obstacle) (cs : list Coin)
      (delta_time : Q) (e : GameEngine) :
  0 <= scroll delta_time e ->
  Forall obstacle_wf os -> Forall coin_wf cs ->
  storage_inv e -> storage_inv (frame os cs delta_time e).
Proof.
  intros D Fo Fc [So Sc]. unfold storage_inv.
  rewrite frame_obstacles, frame_coins. split.
  - apply Forall_forall. intros o H.
    apply filter_In in H. destruct H as [H Y]. apply ltb_lt in Y.
    apply in_map_iff in H. destruct H as (o1 & <- & H).
    apply in_map_iff in H. destruct H as (o0 & <- & H).
    assert (W : obstacle_wf o0).
    { apply in_app_or in H. rewrite Forall_forall in So, Fo.
      destruct H; auto. }
    apply resolved_wf; try assumption.
    unfold resolved in Y.
    now destruct (resolves _ (move_obstacle (scroll delta_time e) o0)).
  - apply Forall_forall. intros c H.
    apply filter_In in H. destruct H as [H Y]. apply ltb_lt in Y.
    apply in_map_iff in H. destruct H as (c1 & <- & H).
    apply in_map_iff in H. destruct H as (c0 & <- & H).
    assert (W : coin_wf c0).
    { apply in_app_or in H. rewrite Forall_forall in Sc, Fc.
      destruct H; auto. }
    apply picked_wf; try assumption.
    unfold picked in Y.
    now destruct (picks_up _ (move_coin (scroll delta_time e) c0)).
Qed.

Lemma step_storage_inv (o : Op) (e : GameEngine) :
  nonneg_time o -> speed_inv (state e) -> storage_inv e ->
  storage_inv (engine_after (step o e)).
Proof.
  intros T I S. destruct o as [dt rnd | d | | now]; cbn [step].
  - destruct (paused (state e)) eqn:Pa;
      [|destruct (game_over (state e)) eqn:G].
    + now rewrite update_game_stopped by auto.
    + now rewrite update_game_stopped by auto.
    + rewrite update_game_running by now split. cbn [engine_after].
      apply frame_storage_inv.
      * destruct (scroll_bounds dt e T I) as [B _].
        cbn [nonneg_time] in T.
        apply Qle_trans with (300 * dt); [|exact B].
        apply Qmult_le_0_compat; [discriminate|exact T].
      * apply spawned_obstacles_wf.
      * apply spawned_coins_wf.
      * exact S.
  - destruct (move_player_frame d e) as (_ & O & C).
    unfold storage_inv. now rewrite O, C.
  - exact S.
  - split; constructor.
Qed.

Lemma reachable_storage_inv (e : GameEngine) : reachable e -> storage_inv e.
Proof.
  induction 1 as [now f blank | o e R IH T].
  - destruct f; split; constructor.
  - apply step_storage_inv; try assumption.
    now apply reachable_state_inv.
Qed.

End StorageInvariant.

(** * Lane changes *)

(** X1.  On a reachable, running engine "left" and "right" return; the
    lane becomes [max(0, lane - 1)] resp. [min(2, lane + 1)], the player's
    x is the canonical position of the new lane, a move against the edge
    changes nothing at all, and neither move touches the score board, the
    objects, or the jump and the slide. *)
Theorem lane_change_is_clamped (e : GameEngine) :
  reachable e -> running e ->
  exists l r,
    move_player "left" e = Returns l /\
    move_player "right" e = Returns r /\
    lane (player l) = Z.max 0 (lane (player e) - 1) /\
    lane (player r) = Z.min 2 (lane (player e) + 1) /\
    index LANE_POSITIONS (lane (player l)) = Ok (pos_x (p_position (player l))) /\
    index LANE_POSITIONS (lane (player r)) = Ok (pos_x (p_position (player r))) /\
    (lane (player e) = 0%Z -> l = e) /\
    (lane (player e) = 2%Z -> r = e) /\
    (state l = state e /\ obstacles l = obstacles e /\ coins l = coins e /\
     jumping (player l) = jumping (player e) /\
     sliding (player l) = sliding (player e)) /\
    (state r = state e /\ obstacles r = obstacles e /\ coins r = coins e /\
     jumping (player r) = jumping (player e) /\
     sliding (player r) = sliding (player e)).
Proof.
  intros R Run.
  pose proof (reachable_lane_inv e R) as L.
  destruct (reachable_more_inv e R) as [(PX & _) _].
  unfold lane_inv in L.
  assert (C : lane (player e) = 0%Z \/ lane (player e) = 1%Z \/
              lane (player e) = 2%Z) by lia.
  unfold move_player, snap_to_lane. rewrite (running_flags e Run).
  cbn [String.eqb Ascii.eqb Bool.eqb andb player with_player set_lane lane].
  destruct C as [C | [C | C]]; rewrite C in *;
    cbn [Z.ltb Z.compare Z.sub Z.add Z.opp Z.pos_sub Pos.compare
         Pos.compare_cont index LANE_POSITIONS length Z.of_nat
         Pos.of_succ_nat Pos.succ Z.leb Z.to_nat Pos.to_nat Pos.iter_op
         Nat.add nth_error andb];
    eexists; eexists;
    (split; [reflexivity|]); (split; [reflexivity|]);
    cbn [player with_player set_player_x set_lane lane p_position
         set_position_x pos_x state obstacles coins jumping sliding];
    rewrite ?C;
    repeat split; try reflexivity; try exact PX; try discriminate.
Qed.

Lemma lane_change_is_clamped_witness :
  exists l r,
    move_player "left" Scenario.fresh = Returns l /\
    move_player "right" Scenario.fresh = Returns r /\
    lane (player l) = 0%Z /\ lane (player r) = 2%Z.
Proof.
  destruct (lane_change_is_clamped Scenario.fresh) as (l & r & A & B & C & D & _).
  - apply reach_new.
  - split; reflexivity.
  - exists l, r. repeat split; assumption.
Defined.

(** X2.  On a reachable, running engine a step to the left followed by a
    step to the right gives back the very same engine when the player was
    not in the left lane, and the other way round when the player was not
    in the right lane. *)
Theorem left_right_round_trip (e : GameEngine) :
  reachable e -> running e ->
  ((0 < lane (player e))%Z -> run [Move "left"; Move "right"] e = e) /\
  ((lane (player e) < 2)%Z -> run [Move "right"; Move "left"] e = e).
Proof.
  intros R Run.
  pose proof (reachable_lane_inv e R) as L.
  destruct (reachable_more_inv e R) as [(PX & _) _].
  unfold lane_inv in L.
  destruct Run as [G P].
  destruct e as [[sc d cc lv m go pa hs] [[px py] w h a ln j sl jh]
                   os cs lu stm jt].
  cbn [player lane p_position pos_x state game_over paused] in *.
  subst go pa.
  assert (C : ln = 0%Z \/ ln = 1%Z \/ ln = 2%Z) by lia.
  split; intros H;
    destruct C as [C | [C | C]]; subst ln; try lia;
    injection PX as PX; subst px; reflexivity.
Qed.

Lemma left_right_round_trip_witness :
  run [Move "left"; Move "right"] Scenario.fresh = Scenario.fresh /\
  run [Move "right"; Move "left"] Scenario.fresh = Scenario.fresh.
Proof.
  destruct (left_right_round_trip Scenario.fresh) as [A B].
  - apply reach_new.
  - split; reflexivity.
  - split; [apply A|apply B]; reflexivity.
Defined.

(** * The slide *)

(** X3.  On a reachable, running engine: "down" starts a slide when the
    player is not sliding (whether or not a jump is under way, which goes
    on unchanged) and is ignored while the player slides, as "up" is
    ignored while the player jumps; while the player slides the slide
    timer stays below one second; a frame adds [delta_time] to the timer,
    and ends the slide with the timer back at zero once it reaches
    [SLIDE_DURATION]. *)
Theorem slide_lasts_one_second (e : GameEngine) :
  reachable e -> running e ->
  (sliding (player e) = false ->
   exists e', move_player "down" e = Returns e' /\
              sliding (player e') = true /\ slide_timer e' = 0 /\
              jumping (player e') = jumping (player e) /\
              jump_timer e' = jump_timer e /\
              jump_height (player e') = jump_height (player e) /\
              lane (player e') = lane (player e) /\ state e' = state e) /\
  (sliding (player e) = true ->
   move_player "down" e = Returns e /\
   0 <= slide_timer e /\ slide_timer e < 1) /\
  (jumping (player e) = true -> move_player "up" e = Returns e) /\
  (forall (delta_time : Q) (rnd : Draws),
      0 <= delta_time -> sliding (player e) = true ->
      exists e', update_game delta_time rnd e = Returns e' /\
        let t := slide_timer e + delta_time in
        (t < 1 -> sliding (player e') = true /\ slide_timer e' = t) /\
        (1 <= t -> sliding (player e') = false /\ slide_timer e' = 0)).
Proof.
  intros R Run. destruct (reachable_more_inv e R) as [_ S].
  pose proof (running_flags e Run) as F.
  split; [|split; [|split]].
  - intros N. unfold move_player. rewrite F, N.
    cbn [String.eqb Ascii.eqb Bool.eqb andb negb].
    eexists. split; [reflexivity|]. repeat split.
  - intros Y. unfold slide_inv in S. rewrite Y in S. split; [|exact S].
    unfold move_player. rewrite F, Y.
    cbn [String.eqb Ascii.eqb Bool.eqb andb negb]. reflexivity.
  - intros J. unfold move_player. rewrite F, J.
    cbn [String.eqb Ascii.eqb Bool.eqb andb negb]. reflexivity.
  - intros dt rnd T Y.
    eexists. split; [now apply update_game_running|].
    cbv zeta. rewrite frame_player, frame_slide_timer.
    exact (update_player_actions_slide dt e Y).
Qed.

Lemma slide_lasts_one_second_witness :
  exists e1 e2,
    move_player "down" Scenario.jumper = Returns e1 /\
    sliding (player e1) = true /\ jumping (player e1) = true /\
    update_game 1 Scenario.quiet e1 = Returns e2 /\
    sliding (player e2) = false.
Proof.
  assert (R : reachable Scenario.jumper).
  { apply reachable_run; [apply reach_new|]. nonneg_ops. }
  assert (Run : running Scenario.jumper) by (split; reflexivity).
  destruct (slide_lasts_one_second Scenario.jumper R Run) as (A & _).
  destruct (A eq_refl) as (e1 & E1 & S1 & T1 & J1 & _).
  assert (R1 : reachable e1).
  { apply (f_equal engine_after) in E1. cbn [engine_after] in E1.
    rewrite <- E1. now apply (reach_step (Move "down")). }
  assert (Run1 : running e1).
  { apply (f_equal engine_after) in E1. cbn [engine_after] in E1.
    rewrite <- E1. split; reflexivity. }
  destruct (slide_lasts_one_second e1 R1 Run1) as (_ & _ & _ & B).
  destruct (B 1 Scenario.quiet ltac:(discriminate) S1) as (e2 & E2 & _ & L).
  exists e1, e2. split; [exact E1|]. split; [exact S1|].
  split; [rewrite J1; reflexivity|]. split; [exact E2|].
  apply L. cbv zeta. rewrite T1. discriminate.
Defined.

(** * Pause and game over *)

Lemma run_app (ops1 ops2 : list Op) (e : GameEngine) :
  run (ops1 ++ ops2) e = run ops2 (run ops1 e).
Proof.
  revert e. induction ops1 as [|o ops1 IH]; intros e; [reflexivity|].
  cbn [app run]. apply IH.
Qed.

Lemma step_stopped (o : Op) (e : GameEngine) :
  tick_or_move o ->
  paused (state e) = true \/ game_over (state e) = true ->
  step o e = Returns e.
Proof.
  intros T H. destruct o as [dt rnd | d | | now]; try contradiction;
    cbn [step].
  - now apply update_game_stopped.
  - unfold move_player. now rewrite (not_running_flags e H).
Qed.

Lemma run_stopped (ops : list Op) (e : GameEngine) :
  Forall tick_or_move ops ->
  paused (state e) = true \/ game_over (state e) = true ->
  run ops e = e.
Proof.
  intros F H. induction F as [|o ops T F IH]; [reflexivity|].
  cbn [run]. now rewrite (step_stopped o e T H).
Qed.

Lemma pause_game_involutive (e : GameEngine) :
  pause_game (pause_game e) = e.
Proof.
  destruct e as [[sc d cc lv m go pa hs] p os cs lu stm jt].
  unfold pause_game. cbn. now rewrite negb_involutive.
Qed.

(** X4.  Pausing twice gives back the same engine, and so does pausing a
    running engine, sending it any frames and moves, and pausing again:
    nothing that happens while the engine is paused leaves a trace. *)
Theorem pause_resume_round_trip (e : GameEngine) :
  pause_game (pause_game e) = e /\
  (paused (state e) = false ->
   forall ops : list Op,
     Forall tick_or_move ops -> run (Pause :: ops ++ [Pause]) e = e).
Proof.
  split; [apply pause_game_involutive|].
  intros P ops F. cbn [run step engine_after].
  rewrite run_app. rewrite (run_stopped ops (pause_game e) F).
  - cbn [run step engine_after]. apply pause_game_involutive.
  - left. cbn. now rewrite P.
Qed.

Lemma pause_resume_round_trip_witness :
  run (Pause :: [Tick 5 Scenario.tree_and_coin; Move "left"; Move "up"]
         ++ [Pause]) Scenario.fresh
  = Scenario.fresh.
Proof.
  destruct (pause_resume_round_trip Scenario.fresh) as [_ A].
  apply A; [reflexivity|].
  repeat (apply Forall_cons; [exact I|]). apply Forall_nil.
Defined.

(** X5.  Game over is final: once [game_over] is set, no sequence of
    frames, moves and pauses changes anything but the [paused] flag, so
    the engine is either as it was or as one [pause_game] leaves it; only
    [reset_game] leads back to a running engine. *)
Theorem game_over_is_final (e : GameEngine) (ops : list Op) :
  game_over (state e) = true ->
  Forall not_reset ops ->
  (run ops e = e \/ run ops e = pause_game e) /\
  game_over (state (run ops e)) = true /\
  forall now : Q, running (reset_game now (run ops e)).
Proof.
  intros G F.
  assert (H : run ops e = e \/ run ops e = pause_game e).
  { revert e G. induction F as [|o ops N F IH]; intros e G; [now left|].
    cbn [run].
    destruct o as [dt rnd | d | | now]; try contradiction.
    - rewrite (step_stopped (Tick dt rnd) e I) by now right.
      now apply IH.
    - rewrite (step_stopped (Move d) e I) by now right.
      now apply IH.
    - cbn [step engine_after].
      destruct (IH (pause_game e) G) as [-> | ->]; [now right|left].
      apply pause_game_involutive. }
  split; [exact H|]. split.
  - destruct H as [-> | ->]; exact G.
  - intros now. split; reflexivity.
Qed.

Lemma game_over_is_final_witness :
  let over := run Scenario.into_the_trees Scenario.fresh in
  let ops := [Tick 1 Scenario.tree_and_coin; Pause; Move "right";
              Tick 1 Scenario.quiet] in
  (run ops over = over \/ run ops over = pause_game over) /\
  game_over (state (run ops over)) = true.
Proof.
  intros over ops.
  destruct (game_over_is_final over ops) as (A & B & _).
  - vm_compute. reflexivity.
  - repeat (apply Forall_cons; [exact I|]). apply Forall_nil.
  - split; assumption.
Defined.

(** * The player's rectangle *)

Section PlayerRect.

Lemma div_half (t : Q) : t / (1 # 2) == 2 * t.
Proof. field. Qed.

Lemma spec_jump_height_bounds (t : Q) :
  0 <= t -> t < 1 -> 0 <= spec_jump_height t /\ spec_jump_height t <= 80.
Proof.
  intros H0 H1. destruct (Qlt_le_dec t (1 # 2)) as [A | A].
  - rewrite (spec_jump_height_rise t A), div_half. split; lra.
  - rewrite (spec_jump_height_fall t A H1), div_half. split; lra.
Qed.

Lemma jump_inv_height (e : GameEngine) :
  jump_inv e -> 0 <= jump_height (player e) /\ jump_height (player e) <= 80.
Proof.
  unfold jump_inv. destruct (jumping (player e)).
  - intros (T0 & T1 & H). rewrite H. now apply spec_jump_height_bounds.
  - intros (H & _). rewrite H. split; discriminate.
Qed.

(** The bottom edge of the player's rectangle is the player's y less the
    jump offset. *)
Lemma get_player_rect_eq (e : GameEngine) :
  _get_player_rect e =
  (pos_x (p_position (player e)) - 20,
   pos_y (p_position (player e))
     - (if sliding (player e) then 30 else 60)
     - (if jumping (player e) then jump_height (player e) else 0),
   40,
   if sliding (player e) then 30 else 60).
Proof.
  unfold _get_player_rect. now destruct (sliding (player e)).
Qed.

End PlayerRect.

(** X6.  On a reachable engine the jump height is between 0 and 80, and
    the player's collision rectangle is 40 wide and centred on the lane
    ([x = 150 * lane + 130]), 30 high while sliding and 60 otherwise; its
    bottom edge is 400 less the jump height while jumping, and its top
    edge stays between 260 and 370. *)
Theorem player_rect_on_reachable (e : GameEngine) :
  reachable e ->
  0 <= jump_height (player e) /\ jump_height (player e) <= 80 /\
  let '(x, y, w, h) := _get_player_rect e in
  x == 150 * inject_Z (lane (player e)) + 130 /\
  w = 40 /\
  h = (if sliding (player e) then 30 else 60) /\
  y + h == 400 - (if jumping (player e) then jump_height (player e) else 0) /\
  260 <= y /\ y <= 370.
Proof.
  intros R.
  pose proof (reachable_lane_inv e R) as L.
  destruct (reachable_more_inv e R) as [(PX & PY & _) _].
  destruct (jump_inv_height e (reachable_jump_inv e R)) as [J0 J1].
  split; [exact J0|]. split; [exact J1|].
  rewrite get_player_rect_eq. rewrite PY.
  split; [|split; [reflexivity|split; [reflexivity|]]].
  - unfold lane_inv in L.
    assert (C : lane (player e) = 0%Z \/ lane (player e) = 1%Z \/
                lane (player e) = 2%Z) by lia.
    destruct C as [C | [C | C]]; rewrite C in *;
      injection PX as PX; rewrite <- PX; reflexivity.
  - destruct (sliding (player e)), (jumping (player e)); repeat split; lra.
Qed.

Lemma player_rect_on_reachable_witness :
  jump_height (player Scenario.jumper) <= 80 /\
  let '(x, y, w, h) := _get_player_rect Scenario.jumper in
  y + h == 400 - jump_height (player Scenario.jumper).
Proof.
  destruct (player_rect_on_reachable Scenario.jumper) as (_ & A & B).
  - apply reachable_run; [apply reach_new|]. nonneg_ops.
  - split; [exact A|].
    destruct (_get_player_rect Scenario.jumper) as [[[x y] w] h].
    destruct B as (_ & _ & _ & B & _). exact B.
Defined.

(** * Score, distance and high score *)

Section Counters.

Lemma int_small (q : Q) : 0 <= q -> q < 1 -> int q = 0%Z.
Proof.
  intros H0 H1. unfold int. apply Z.quot_small.
  unfold Qle, Qlt in *. cbn in *. lia.
Qed.

Lemma int_is_floor (q : Q) : 0 <= q -> int q = Qfloor q.
Proof.
  intros H. unfold int. destruct q as [n d]. cbn [Qnum Qden Qfloor].
  apply Z.quot_div_nonneg; [|lia].
  unfold Qle in H. cbn in H. lia.
Qed.

Lemma int_bounds (q : Q) :
  0 <= q -> inject_Z (int q) <= q /\ q < inject_Z (int q) + 1.
Proof.
  intros H. rewrite (int_is_floor q H). split.
  - apply Qfloor_le.
  - pose proof (Qlt_floor q) as L. rewrite inject_Z_plus in L. exact L.
Qed.

Lemma count_nonneg {A : Type} (f : A -> bool) (l : list A) :
  (0 <= count f l)%Z.
Proof. unfold count. lia. Qed.

Lemma handle_collision_high_score (s : GameState) :
  high_score (_handle_collision s) =
  (if (lives s - 1 <=? 0)%Z then Z.max (high_score s) (score s)
   else high_score s) /\
  game_over (_handle_collision s) =
  (if (lives s - 1 <=? 0)%Z then true else game_over s).
Proof.
  unfold _handle_collision, save_high_score.
  cbn [lives set_lives set_game_over score high_score].
  destruct (lives s - 1 <=? 0)%Z; [|now cbn].
  destruct (high_score s <? score s)%Z eqn:E;
    cbn [high_score set_high_score game_over set_game_over set_lives].
  - apply Z.ltb_lt in E. split; [lia|reflexivity].
  - apply Z.ltb_ge in E. split; [lia|reflexivity].
Qed.

(** The obstacle loop takes the high score when a hit of the loop leaves
    no life. *)
Lemma collide_obstacles_high_score (p : Player) (rect : Rect)
      (l : list Obstacle) (s : GameState) :
  let n := count (hits p rect) l in
  let s' := fst (collide_obstacles p rect s l) in
  high_score s' =
  (if ((1 <=? n) && (lives s - n <=? 0))%Z
   then Z.max (high_score s) (score s) else high_score s) /\
  game_over s' =
  (if ((1 <=? n) && (lives s - n <=? 0))%Z then true else game_over s).
Proof.
  revert s. induction l as [|o l IH]; intros s; cbv zeta.
  - cbn. split; reflexivity.
  - rewrite collide_obstacles_cons, count_cons. cbn [fst].
    specialize (IH (fst (collide_obstacle p rect s o))). cbv zeta in IH.
    rewrite collide_obstacle_fst in *.
    pose proof (count_nonneg (hits p rect) l) as N.
    destruct IH as [IH1 IH2]. rewrite IH1, IH2. clear IH1 IH2.
    destruct (hits p rect o).
    + destruct (handle_collision_frame s) as (L & S & _).
      destruct (handle_collision_high_score s) as (H & G).
      rewrite L, S, H, G.
      destruct (1 <=? count (hits p rect) l)%Z eqn:A;
        destruct (lives s - 1 - count (hits p rect) l <=? 0)%Z eqn:B;
        destruct (lives s - 1 <=? 0)%Z eqn:C;
        destruct (1 <=? 1 + count (hits p rect) l)%Z eqn:D;
        destruct (lives s - (1 + count (hits p rect) l) <=? 0)%Z eqn:E;
        cbn [andb];
        try (apply Z.leb_le in A); try (apply Z.leb_gt in A);
        try (apply Z.leb_le in B); try (apply Z.leb_gt in B);
        try (apply Z.leb_le in C); try (apply Z.leb_gt in C);
        try (apply Z.leb_le in D); try (apply Z.leb_gt in D);
        try (apply Z.leb_le in E); try (apply Z.leb_gt in E);
        try lia; split; try reflexivity; lia.
    + replace (0 + count (hits p rect) l)%Z with (count (hits p rect) l)
        by lia.
      split; reflexivity.
Qed.

Lemma frame_board (os : list Obstacle) (cs : list Coin)
      (delta_time : Q) (e : GameEngine) :
  let e' := frame os cs delta_time e in
  let a := _update_player_actions delta_time e in
  let rect := _get_player_rect a in
  let mo := map (move_obstacle (scroll delta_time e)) (obstacles e ++ os) in
  let mc := map (move_coin (scroll delta_time e)) (coins e ++ cs) in
  score (state e') =
    (score (state e)
     + int (10 * delta_time * speed_multiplier (state e))
     + 50 * count (picks_up rect) mc)%Z /\
  coins_collected (state e') =
    (coins_collected (state e) + count (picks_up rect) mc)%Z /\
  lives (state e') = (lives (state e) - count (hits (player a) rect) mo)%Z /\
  distance (state e') =
    (distance (state e)
     + int (100 * delta_time * speed_multiplier (state e)))%Z /\
  (high_score (state e) <= high_score (state e'))%Z.
Proof.
  cbv zeta. rewrite frame_state.
  set (a := _update_player_actions delta_time e).
  set (rect := _get_player_rect a).
  set (mo := map (move_obstacle (scroll delta_time e)) (obstacles e ++ os)).
  set (mc := map (move_coin (scroll delta_time e)) (coins e ++ cs)).
  set (s0 := advance_score delta_time (state e)).
  destruct (collide_coins_fst rect mc
              (fst (collide_obstacles (player a) rect s0 mo)))
    as (C & S & L & D & _ & _ & _ & H).
  destruct (collide_obstacles_fst (player a) rect mo s0)
    as (L' & S' & D' & C' & _).
  destruct (collide_obstacles_high_score (player a) rect mo s0) as (H' & _).
  destruct (advance_score_frame delta_time (state e))
    as (L0 & _ & _ & C0 & H0 & D0 & S0 & _).
  fold s0 in L0, C0, H0, D0, S0.
  rewrite C, S, L, D, H, L', S', D', C', H', L0, C0, H0, D0, S0.
  repeat split.
  destruct ((1 <=? count (hits (player a) rect) mo)
            && (lives (state e) - count (hits (player a) rect) mo <=? 0))%Z;
    lia.
Qed.

Lemma step_counters (o : Op) (e : GameEngine) :
  nonneg_time o -> not_reset o -> speed_inv (state e) ->
  let e' := engine_after (step o e) in
  (score (state e) <= score (state e'))%Z /\
  (distance (state e) <= distance (state e'))%Z /\
  (coins_collected (state e) <= coins_collected (state e'))%Z /\
  (lives (state e') <= lives (state e))%Z /\
  (high_score (state e) <= high_score (state e'))%Z.
Proof.
  intros T N I. cbv zeta.
  destruct o as [dt rnd | d | | now]; cbn [step].
  - destruct (paused (state e)) eqn:P;
      [|destruct (game_over (state e)) eqn:G].
    + rewrite update_game_stopped by auto. cbn [engine_after].
      repeat split; lia.
    + rewrite update_game_stopped by auto. cbn [engine_after].
      repeat split; lia.
    + rewrite update_game_running by now split. cbn [engine_after].
      destruct (frame_board
                  (spawned_obstacles rnd
                     (speed_multiplier (advance_score dt (state e))))
                  (spawned_coins rnd) dt e) as (S & C & L & D & H).
      rewrite S, C, L, D.
      pose proof (speed_inv_bounds (state e) I) as [M _].
      cbn [nonneg_time] in T.
      assert (G1 : (0 <= int (10 * dt * speed_multiplier (state e)))%Z).
      { apply int_nonneg. apply Qmult_le_0_compat; [|lra].
        apply Qmult_le_0_compat; [discriminate|exact T]. }
      assert (G2 : (0 <= int (100 * dt * speed_multiplier (state e)))%Z).
      { apply int_nonneg. apply Qmult_le_0_compat; [|lra].
        apply Qmult_le_0_compat; [discriminate|exact T]. }
      match goal with
      | |- context [count (picks_up ?r) ?l] =>
          pose proof (count_nonneg (picks_up r) l)
      end.
      match goal with
      | |- context [count (hits ?p ?r) ?l] =>
          pose proof (count_nonneg (hits p r) l)
      end.
      repeat split; lia.
  - destruct (move_player_frame d e) as (-> & _). repeat split; lia.
  - cbn. repeat split; lia.
  - contradiction.
Qed.

End Counters.

(** X7.  Across any frames with [delta_time >= 0], moves and pauses run
    from a reachable engine, [score], [distance], [coins_collected] and
    [high_score] never go down and [lives] never goes up. *)
Theorem counters_are_monotone (e : GameEngine) (ops : list Op) :
  reachable e ->
  Forall nonneg_time ops ->
  Forall not_reset ops ->
  let e' := run ops e in
  (score (state e) <= score (state e'))%Z /\
  (distance (state e) <= distance (state e'))%Z /\
  (coins_collected (state e) <= coins_collected (state e'))%Z /\
  (lives (state e') <= lives (state e))%Z /\
  (high_score (state e) <= high_score (state e'))%Z.
Proof.
  intros R T N. cbv zeta. revert e R.
  induction ops as [|o ops IH]; intros e R.
  - cbn [run]. repeat split; lia.
  - inversion T; subst. inversion N; subst. cbn [run].
    destruct (step_counters o e) as (S & D & C & L & H); try assumption.
    { now apply reachable_state_inv. }
    destruct (IH ltac:(assumption) ltac:(assumption)
                 (engine_after (step o e)))
      as (S' & D' & C' & L' & H').
    { now apply reach_step. }
    repeat split; lia.
Qed.

Lemma counters_are_monotone_witness :
  let e' := run Scenario.at_resolution Scenario.fresh in
  (score (state Scenario.fresh) <= score (state e'))%Z /\
  (lives (state e') <= lives (state Scenario.fresh))%Z /\
  (high_score (state Scenario.fresh) <= high_score (state e'))%Z.
Proof.
  intros e'.
  destruct (counters_are_monotone Scenario.fresh Scenario.at_resolution)
    as (S & _ & _ & L & H).
  - apply reach_new.
  - unfold Scenario.at_resolution, Scenario.approach.
    cbn [repeat app]. nonneg_ops.
  - unfold Scenario.at_resolution, Scenario.approach.
    cbn [repeat app]. repeat (apply Forall_cons; [exact I|]).
    apply Forall_nil.
  - repeat split; assumption.
Defined.

(** X10.  When the collision step ends a game that was going on, the high
    score becomes the larger of the old high score and the score as it
    stood before the coins of that same step were added; the 50 points of
    each coin collected in the step come on top of the score afterwards
    and are not in the high score.  When the step does not end the game
    the high score is untouched. *)
Theorem high_score_at_game_end (e : GameEngine) :
  lives_inv (state e) -> game_over (state e) = false ->
  let e' := _check_collisions e in
  let n := count (picks_up (_get_player_rect e)) (coins e) in
  score (state e') = (score (state e) + 50 * n)%Z /\
  (game_over (state e') = true ->
   high_score (state e') = Z.max (high_score (state e)) (score (state e))) /\
  (game_over (state e') = false ->
   high_score (state e') = high_score (state e)).
Proof.
  intros I G. cbv zeta.
  destruct (check_collisions_board e) as (_ & _ & S).
  split; [exact S|].
  rewrite check_collisions_eq. cbv zeta.
  cbn [state with_coins with_obstacles with_state].
  set (rect := _get_player_rect e).
  destruct (collide_coins_fst rect (coins e)
              (fst (collide_obstacles (player e) rect (state e) (obstacles e))))
    as (_ & _ & _ & _ & _ & G' & _ & H').
  destruct (collide_obstacles_high_score (player e) rect (obstacles e) (state e))
    as (H & G2).
  rewrite G', H', H, G2, G.
  destruct ((1 <=? count (hits (player e) rect) (obstacles e))
            && (lives (state e) - count (hits (player e) rect) (obstacles e)
                <=? 0))%Z.
  - split; [reflexivity|discriminate].
  - split; [discriminate|reflexivity].
Qed.

Lemma high_score_at_game_end_witness :
  let e := with_state (set_lives 1 (state Scenario.fresh))
             (with_coins [Scenario.coin_on_player]
                (with_obstacles [Scenario.pit_on_player] Scenario.fresh)) in
  game_over (state (_check_collisions e)) = true /\
  score (state (_check_collisions e)) = 50%Z /\
  high_score (state (_check_collisions e)) = 1200%Z.
Proof.
  intros e.
  destruct (high_score_at_game_end e) as (S & H & _).
  - split; [cbn; lia|]. split; [discriminate|cbn; lia].
  - reflexivity.
  - assert (G : game_over (state (_check_collisions e)) = true)
      by (vm_compute; reflexivity).
    split; [exact G|]. split.
    + rewrite S. vm_compute. reflexivity.
    + rewrite (H G). reflexivity.
Defined.

(** * Spawning *)

(** X11.  In a frame of a reachable, running engine with [delta_time >= 0]
    an obstacle is spawned for certain when the first draw is below 0.02
    and never when it is 0.06 or more (the rate is 0.02 times the
    multiplier, which lies between 1 and 3); a coin is spawned exactly
    when the second draw is below 0.03, whatever the multiplier.  A
    spawned obstacle is active, 50 by 60, at y = -50 on the position of
    the drawn lane; a spawned coin is 20 by 20 at y = -30. *)
Theorem spawn_thresholds
        (e : GameEngine) (delta_time : Q) (rnd : Draws) :
  reachable e -> running e -> 0 <= delta_time ->
  let m := speed_multiplier (advance_score delta_time (state e)) in
  update_game delta_time rnd e =
    Returns (frame (spawned_obstacles rnd m) (spawned_coins rnd) delta_time e) /\
  (obstacle_roll rnd < 2 # 100 ->
   spawned_obstacles rnd m =
   [mkObstacle (mkPosition (lane_position (obstacle_lane rnd)) (-50)) 50 60
               true (choice_kind (obstacle_kind rnd))
               (randint_0_2 (obstacle_lane rnd))]) /\
  (6 # 100 <= obstacle_roll rnd -> spawned_obstacles rnd m = []) /\
  (coin_roll rnd < 3 # 100 ->
   spawned_coins rnd =
   [mkCoin (mkPosition (lane_position (coin_lane rnd)) (-30)) 20 20
           true false]) /\
  (3 # 100 <= coin_roll rnd -> spawned_coins rnd = []).
Proof.
  intros R Run T m.
  destruct (reachable_state_inv e R) as [_ I].
  destruct (advance_score_speed delta_time (state e) T I) as (I' & _).
  apply speed_inv_bounds in I'. fold m in I'. destruct I' as [M1 M3].
  split; [now apply update_game_running|].
  unfold spawned_obstacles, spawned_coins, OBSTACLE_SPAWN_RATE,
    COIN_SPAWN_RATE.
  split; [|split; [|split]].
  - intros H.
    assert (L : ltb (obstacle_roll rnd) ((2 # 100) * m) = true)
      by (apply ltb_lt; lra).
    now rewrite L.
  - intros H.
    assert (L : ltb (obstacle_roll rnd) ((2 # 100) * m) = false)
      by (apply ltb_ge; lra).
    now rewrite L.
  - intros H. apply ltb_lt in H. now rewrite H.
  - intros H. apply ltb_ge in H. now rewrite H.
Qed.

Lemma spawn_thresholds_witness :
  update_game (1 # 60) Scenario.tree_and_coin Scenario.fresh =
  Returns
    (frame
       [mkObstacle (mkPosition 300 (-50)) 50 60 true "tree" 1]
       [mkCoin (mkPosition 300 (-30)) 20 20 true false]
       (1 # 60) Scenario.fresh).
Proof.
  destruct (spawn_thresholds Scenario.fresh (1 # 60) Scenario.tree_and_coin)
    as (E & O & _ & C & _).
  - apply reach_new.
  - split; reflexivity.
  - discriminate.
  - rewrite E. rewrite O by reflexivity. rewrite C by reflexivity.
    reflexivity.
Defined.

(** * The stored objects *)

(** X13.  Every obstacle stored in a reachable engine is 50 by 60, lies on
    the canonical position of its lane, which is 0, 1 or 2, is a tree, a
    rock or a pit, and has [-50 <= y < 600]; every stored coin is 20 by
    20, still has [active] set, lies on one of the three lane positions
    and has [-30 <= y < 600]. *)
Theorem stored_objects_are_well_formed (e : GameEngine) :
  reachable e ->
  (forall o, In o (obstacles e) ->
     o_width o = 50 /\ o_height o = 60 /\
     (0 <= o_lane o <= 2)%Z /\
     index LANE_POSITIONS (o_lane o) = Ok (pos_x (o_position o)) /\
     In (obstacle_type o) ["tree"; "rock"; "pit"]%string /\
     - (50) <= pos_y (o_position o) /\ pos_y (o_position o) < 600) /\
  (forall c, In c (coins e) ->
     c_width c = 20 /\ c_height c = 20 /\ c_active c = true /\
     In (pos_x (c_position c)) [150; 300; 450] /\
     - (30) <= pos_y (c_position c) /\ pos_y (c_position c) < 600).
Proof.
  intros R. destruct (reachable_storage_inv e R) as [O C].
  rewrite Forall_forall in O, C. split.
  - intros o H. exact (O o H).
  - intros c H. exact (C c H).
Qed.

Lemma stored_objects_are_well_formed_witness :
  Forall (fun o => o_width o = 50 /\ pos_y (o_position o) < 600)
         (obstacles (run Scenario.one_frame_later Scenario.fresh)).
Proof.
  destruct (stored_objects_are_well_formed
              (run Scenario.one_frame_later Scenario.fresh)) as [A _].
  - apply reachable_run; [apply reach_new|].
    unfold Scenario.one_frame_later, Scenario.at_resolution,
      Scenario.approach.
    cbn [repeat app]. nonneg_ops.
  - apply Forall_forall. intros o H.
    destruct (A o H) as (W & _ & _ & _ & _ & _ & Y). split; assumption.
Defined.

Section Separation.

Lemma rects_collide_apart (r1 r2 : Rect) :
  let '(x1, y1, w1, h1) := r1 in
  let '(x2, y2, w2, h2) := r2 in
  x1 + w1 <= x2 \/ x2 + w2 <= x1 \/ y1 + h1 <= y2 \/ y2 + h2 <= y1 ->
  _rects_collide r1 r2 = false.
Proof.
  destruct r1 as [[[x1 y1] w1] h1]. destruct r2 as [[[x2 y2] w2] h2].
  intros H. unfold _rects_collide.
  destruct H as [H | [H | [H | H]]]; apply ltb_ge in H; rewrite H;
    rewrite ?andb_false_r; reflexivity.
Qed.

Lemma lane_positions_apart (l1 l2 : Z) (x1 x2 : Q) :
  (0 <= l1 <= 2)%Z -> (0 <= l2 <= 2)%Z -> l1 <> l2 ->
  index LANE_POSITIONS l1 = Ok x1 -> index LANE_POSITIONS l2 = Ok x2 ->
  x1 + 150 <= x2 \/ x2 + 150 <= x1.
Proof.
  intros H1 H2 N E1 E2.
  assert (C1 : l1 = 0%Z \/ l1 = 1%Z \/ l1 = 2%Z) by lia.
  assert (C2 : l2 = 0%Z \/ l2 = 1%Z \/ l2 = 2%Z) by lia.
  destruct C1 as [-> | [-> | ->]]; destruct C2 as [-> | [-> | ->]];
    try congruence;
    injection E1 as <-; injection E2 as <-;
    first [left; discriminate | right; discriminate].
Qed.

Lemma lane_positions_cases (l : Z) (x : Q) :
  (0 <= l <= 2)%Z -> index LANE_POSITIONS l = Ok x ->
  x = 150 \/ x = 300 \/ x = 450.
Proof.
  intros H E.
  assert (C : l = 0%Z \/ l = 1%Z \/ l = 2%Z) by lia.
  destruct C as [-> | [-> | ->]]; injection E as <-; auto.
Qed.

End Separation.

(** X14.  On a reachable engine an obstacle in another lane than the
    player's never overlaps the player's rectangle, and neither does a
    coin whose x is not the player's x, wherever they are on the way
    down and whatever the player is doing. *)
Theorem other_lanes_are_safe (e : GameEngine) :
  reachable e ->
  (forall o, In o (obstacles e) -> o_lane o <> lane (player e) ->
     _rects_collide (_get_player_rect e) (obstacle_rect o) = false) /\
  (forall c, In c (coins e) ->
     pos_x (c_position c) <> pos_x (p_position (player e)) ->
     _rects_collide (_get_player_rect e) (coin_rect c) = false).
Proof.
  intros R.
  pose proof (reachable_lane_inv e R) as L.
  destruct (reachable_more_inv e R) as [(PX & _) _].
  destruct (reachable_storage_inv e R) as [O C].
  rewrite Forall_forall in O, C.
  split.
  - intros o H N. destruct (O o H) as (W & _ & OL & OX & _).
    pose proof (rects_collide_apart (_get_player_rect e) (obstacle_rect o)) as A.
    rewrite get_player_rect_eq in *. unfold obstacle_rect in *. rewrite W in *.
    change (floordiv2 OBSTACLE_WIDTH) with 25 in *.
    apply A.
    destruct (lane_positions_apart _ _ _ _ L OL (not_eq_sym N) PX OX)
      as [D | D]; unfold OBSTACLE_WIDTH; [left|right; left]; lra.
  - intros c H N. destruct (C c H) as (W & _ & _ & CX & _).
    pose proof (rects_collide_apart (_get_player_rect e) (coin_rect c)) as A.
    rewrite get_player_rect_eq in *. unfold coin_rect in *. rewrite W in *.
    change (floordiv2 COIN_SIZE) with 10 in *.
    apply A.
    destruct (lane_positions_cases _ _ L PX) as [P | [P | P]];
      cbn [In LANE_POSITIONS] in CX;
      destruct CX as [X | [X | [X | []]]];
      rewrite P in *; rewrite <- X in *; try congruence;
      unfold COIN_SIZE;
      first [left; discriminate | right; left; discriminate].
Qed.

Lemma other_lanes_are_safe_witness :
  Forall
    (fun o =>
       o_lane o <> 1%Z ->
       _rects_collide
         (_get_player_rect
            (run (firstn 26 Scenario.into_the_trees) Scenario.fresh))
         (obstacle_rect o) = false)
    (obstacles (run (firstn 26 Scenario.into_the_trees) Scenario.fresh)).
Proof.
  destruct (other_lanes_are_safe
              (run (firstn 26 Scenario.into_the_trees) Scenario.fresh))
    as [A _].
  - apply reachable_run; [apply reach_new|].
    unfold Scenario.into_the_trees. cbn [repeat app firstn]. nonneg_ops.
  - apply Forall_forall. exact A.
Defined.

(** * What a frame leaves behind *)

(** X15.  At the end of a frame of a running engine no obstacle that is
    still active overlaps the player's rectangle, and no coin that is
    still uncollected does: every overlap has been resolved. *)
Theorem no_overlap_left_after_a_frame
        (e : GameEngine) (delta_time : Q) (rnd : Draws) :
  running e ->
  exists e',
    update_game delta_time rnd e = Returns e' /\
    (forall o, In o (obstacles e') -> o_active o = true ->
       _rects_collide (_get_player_rect e') (obstacle_rect o) = false) /\
    (forall c, In c (coins e') -> collected c = false ->
       _rects_collide (_get_player_rect e') (coin_rect c) = false).
Proof.
  intros Run. eexists. split; [now apply update_game_running|].
  rewrite frame_obstacles, frame_coins.
  rewrite (get_player_rect_player
             (frame (spawned_obstacles rnd
                       (speed_multiplier (advance_score delta_time (state e))))
                    (spawned_coins rnd) delta_time e)
             (_update_player_actions delta_time e))
    by apply frame_player.
  split.
  - intros o H A. apply filter_In in H. destruct H as [H _].
    apply in_map_iff in H. destruct H as (o1 & <- & _).
    unfold resolved, resolves in *.
    destruct (o_active o1) eqn:A1; cbn [andb] in *.
    + destruct (_rects_collide _ (obstacle_rect o1)) eqn:C; [|exact C].
      discriminate A.
    + rewrite A1 in A. discriminate A.
  - intros c H A. apply filter_In in H. destruct H as [H _].
    apply in_map_iff in H. destruct H as (c1 & <- & _).
    unfold picked, picks_up in *.
    destruct (collected c1) eqn:A1; cbn [andb negb] in *.
    + rewrite A1 in A. discriminate A.
    + destruct (_rects_collide _ (coin_rect c1)) eqn:C; [|exact C].
      discriminate A.
Qed.

Lemma no_overlap_left_after_a_frame_witness :
  exists e',
    update_game (1 # 20) Scenario.quiet
                (run Scenario.approach Scenario.fresh) = Returns e' /\
    (forall o, In o (obstacles e') -> o_active o = true ->
       _rects_collide (_get_player_rect e') (obstacle_rect o) = false).
Proof.
  destruct (no_overlap_left_after_a_frame
              (run Scenario.approach Scenario.fresh) (1 # 20) Scenario.quiet)
    as (e' & E & A & _).
  - split; vm_compute; reflexivity.
  - exists e'. split; assumption.
Defined.

(** X16.  Every obstacle stored after a frame of a reachable, running
    engine with [delta_time >= 0] was stored before the frame or spawned
    in it, and has only moved down: its y has grown by the scroll of the
    frame, which is at least [300 * delta_time] and at most
    [900 * delta_time]; its x, size, kind and lane are as before, and it
    is active only if it was.  The same holds for the coins and their
    [collected] flag. *)
Theorem objects_only_scroll_down
        (e : GameEngine) (delta_time : Q) (rnd : Draws) :
  reachable e -> running e -> 0 <= delta_time ->
  let m := speed_multiplier (advance_score delta_time (state e)) in
  let dy := scroll delta_time e in
  exists e',
    update_game delta_time rnd e = Returns e' /\
    300 * delta_time <= dy /\ dy <= 900 * delta_time /\
    (forall o', In o' (obstacles e') ->
       exists o,
         In o (obstacles e ++ spawned_obstacles rnd m) /\
         pos_y (o_position o') = pos_y (o_position o) + dy /\
         pos_x (o_position o') = pos_x (o_position o) /\
         o_width o' = o_width o /\ o_height o' = o_height o /\
         obstacle_type o' = obstacle_type o /\ o_lane o' = o_lane o /\
         (o_active o' = true -> o_active o = true)) /\
    (forall c', In c' (coins e') ->
       exists c,
         In c (coins e ++ spawned_coins rnd) /\
         pos_y (c_position c') = pos_y (c_position c) + dy /\
         pos_x (c_position c') = pos_x (c_position c) /\
         c_width c' = c_width c /\ c_height c' = c_height c /\
         (collected c' = false -> collected c = false)).
Proof.
  intros R Run T m dy.
  destruct (reachable_state_inv e R) as [_ I].
  destruct (scroll_bounds delta_time e T I) as [B1 B2].
  eexists. split; [now apply update_game_running|].
  split; [exact B1|]. split; [exact B2|].
  rewrite frame_obstacles, frame_coins. fold m dy. split.
  - intros o' H. apply filter_In in H. destruct H as [H _].
    apply in_map_iff in H. destruct H as (o1 & <- & H).
    apply in_map_iff in H. destruct H as (o & <- & H).
    exists o. split; [exact H|].
    unfold resolved. destruct (resolves _ (move_obstacle dy o));
      cbn; repeat split; try reflexivity; try discriminate.
    auto.
  - intros c' H. apply filter_In in H. destruct H as [H _].
    apply in_map_iff in H. destruct H as (c1 & <- & H).
    apply in_map_iff in H. destruct H as (c & <- & H).
    exists c. split; [exact H|].
    unfold picked. destruct (picks_up _ (move_coin dy c));
      cbn; repeat split; try reflexivity; try discriminate.
    auto.
Qed.

Lemma objects_only_scroll_down_witness :
  exists e',
    update_game (1 # 20) Scenario.quiet
                (run Scenario.approach Scenario.fresh) = Returns e' /\
    300 * (1 # 20)
      <= scroll (1 # 20) (run Scenario.approach Scenario.fresh).
Proof.
  destruct (objects_only_scroll_down
              (run Scenario.approach Scenario.fresh) (1 # 20) Scenario.quiet)
    as (e' & E & B & _).
  - apply reachable_run; [apply reach_new|].
    unfold Scenario.approach. cbn [repeat]. nonneg_ops.
  - split; vm_compute; reflexivity.
  - discriminate.
  - exists e'. split; assumption.
Defined.

(** X17.  A long frame can carry an obstacle past the player: on a
    reachable, running engine an active obstacle that the frame moves to
    [430 <= y < 600] is not resolved in that frame, in whatever lane it is
    and wherever it was before, even above the player; it is stored,
    moved and still active, at the end of the frame. *)
Theorem long_frame_carries_obstacle_past_player
        (e : GameEngine) (delta_time : Q) (rnd : Draws) (o : Obstacle) :
  reachable e -> running e -> 0 <= delta_time ->
  In o (obstacles e) -> o_active o = true ->
  430 <= pos_y (o_position o) + scroll delta_time e ->
  pos_y (o_position o) + scroll delta_time e < 600 ->
  exists e',
    update_game delta_time rnd e = Returns e' /\
    In (move_obstacle (scroll delta_time e) o) (obstacles e') /\
    o_active (move_obstacle (scroll delta_time e) o) = true /\
    hits (player e') (_get_player_rect e')
         (move_obstacle (scroll delta_time e) o) = false.
Proof.
  intros R Run T H A Y0 Y1.
  destruct (reachable_more_inv e R) as [(_ & PY & _) _].
  destruct (reachable_storage_inv e R) as [O _].
  rewrite Forall_forall in O. destruct (O o H) as (_ & OH & _).
  pose proof (update_player_actions_jump_inv delta_time e T
                (reachable_jump_inv e R)) as J.
  apply jump_inv_height in J. destruct J as [J0 _].
  destruct (update_player_actions_body delta_time e) as (PP & _).
  assert (C : _rects_collide
                (_get_player_rect (_update_player_actions delta_time e))
                (obstacle_rect (move_obstacle (scroll delta_time e) o))
              = false).
  { pose proof (rects_collide_apart
                  (_get_player_rect (_update_player_actions delta_time e))
                  (obstacle_rect (move_obstacle (scroll delta_time e) o)))
      as S.
    rewrite get_player_rect_eq in *. unfold obstacle_rect in *.
    cbn [o_position o_width o_height move_obstacle add_position_y pos_x pos_y]
      in *.
    rewrite OH, PP, PY in *.
    change (floordiv2 OBSTACLE_HEIGHT) with 30 in *.
    apply S. right. right. left.
    destruct (sliding (player (_update_player_actions delta_time e))),
             (jumping (player (_update_player_actions delta_time e))); lra. }
  eexists. split; [now apply update_game_running|].
  split; [|split; [exact A|]].
  - rewrite frame_obstacles. apply filter_In. split.
    + apply in_map_iff. exists (move_obstacle (scroll delta_time e) o). split.
      * unfold resolved, resolves. rewrite C. now rewrite andb_false_r.
      * apply in_map. apply in_or_app. now left.
    + apply ltb_lt. exact Y1.
  - unfold hits, resolves.
    rewrite (get_player_rect_player
               (frame (spawned_obstacles rnd
                         (speed_multiplier (advance_score delta_time (state e))))
                      (spawned_coins rnd) delta_time e)
               (_update_player_actions delta_time e))
      by apply frame_player.
    rewrite C. now rewrite andb_false_r.
Qed.

Lemma long_frame_carries_obstacle_past_player_witness :
  let e := run [Tick (1 # 20) Scenario.pit_centre] Scenario.fresh in
  let o := mkObstacle (mkPosition 300 (-6998500 # 200000)) 50 60 true "pit" 1 in
  obstacles e = [o] /\
  exists e',
    update_game (8 # 5) Scenario.quiet e = Returns e' /\
    In (move_obstacle (scroll (8 # 5) e) o) (obstacles e') /\
    lives (state e') = 3%Z.
Proof.
  intros e o.
  assert (E : obstacles e = [o]) by (vm_compute; reflexivity).
  split; [exact E|].
  destruct (long_frame_carries_obstacle_past_player
              e (8 # 5) Scenario.quiet o)
    as (e' & U & I & _).
  - apply reachable_run; [apply reach_new|]. nonneg_ops.
  - split; reflexivity.
  - discriminate.
  - rewrite E. now left.
  - reflexivity.
  - vm_compute. discriminate.
  - vm_compute. reflexivity.
  - exists e'. split; [exact U|]. split; [exact I|].
    apply (f_equal engine_after) in U. cbn [engine_after] in U.
    rewrite <- U. vm_compute. reflexivity.
Defined.

(** * The driver loop *)

Section DriverLoop.

Lemma last_cons_default {A : Type} (a d : A) (l : list A) :
  last (a :: l) d = last l a.
Proof.
  revert a d. induction l as [|b l IH]; intros a d; [reflexivity|].
  change (last (a :: b :: l) d) with (last (b :: l) d).
  rewrite (IH b d). symmetry. apply IH.
Qed.

Lemma game_loop_iteration_engine (current_time : Q) (rnd : Draws) (d : Driver) :
  game_engine (game_loop_iteration current_time rnd d) =
  engine_after (step (Tick (current_time - last_update_time d) rnd)
                     (game_engine d)).
Proof. reflexivity. Qed.

End DriverLoop.

(** X18.  When the clock readings of the loop never go back, every
    [delta_time] that [game_loop] passes to [update_game] is at least
    zero, so an engine that was reachable stays reachable; the loop's
    [last_update_time] is the latest reading. *)
Theorem game_loop_keeps_engine_reachable (turns : list (Q * Draws)) (d : Driver) :
  reachable (game_engine d) ->
  clock_monotone (last_update_time d) turns ->
  reachable (game_engine (game_loop turns d)) /\
  last_update_time (game_loop turns d)
    = last (map fst turns) (last_update_time d).
Proof.
  revert d. induction turns as [|[t rnd] turns IH]; intros d R M.
  - split; [exact R|reflexivity].
  - destruct M as [M0 M]. cbn [game_loop map fst].
    rewrite last_cons_default.
    apply (IH (game_loop_iteration t rnd d)).
    + rewrite game_loop_iteration_engine. apply reach_step; [exact R|].
      cbn [nonneg_time]. lra.
    + exact M.
Qed.

Lemma game_loop_keeps_engine_reachable_witness :
  let d := game_loop [(1 # 60, Scenario.tree_left); (1 # 30, Scenario.quiet)]
                     (mkDriver Scenario.fresh 0) in
  reachable (game_engine d) /\ last_update_time d = 1 # 30.
Proof.
  apply (game_loop_keeps_engine_reachable
           [(1 # 60, Scenario.tree_left); (1 # 30, Scenario.quiet)]
           (mkDriver Scenario.fresh 0)).
  - apply reach_new.
  - cbn. repeat split; discriminate.
Defined.

(** X19.  While the engine is paused or the game is over the loop leaves
    the engine as it is but still records each clock reading, so the time
    that passes meanwhile is never handed to [update_game] later. *)
Theorem game_loop_discards_stopped_time (turns : list (Q * Draws)) (d : Driver) :
  paused (state (game_engine d)) = true \/
  game_over (state (game_engine d)) = true ->
  game_engine (game_loop turns d) = game_engine d /\
  last_update_time (game_loop turns d)
    = last (map fst turns) (last_update_time d).
Proof.
  revert d. induction turns as [|[t rnd] turns IH]; intros d H.
  - split; reflexivity.
  - cbn [game_loop map fst]. rewrite last_cons_default.
    assert (E : game_engine (game_loop_iteration t rnd d) = game_engine d).
    { rewrite game_loop_iteration_engine. cbn [step].
      now rewrite update_game_stopped. }
    destruct (IH (game_loop_iteration t rnd d)) as [A B].
    + now rewrite E.
    + split; [now rewrite A|exact B].
Qed.

Lemma game_loop_discards_stopped_time_witness :
  let d := game_loop [(10, Scenario.tree_left); (500, Scenario.tree_and_coin)]
                     (mkDriver Scenario.paused_engine 0) in
  game_engine d = Scenario.paused_engine /\ last_update_time d = 500.
Proof.
  apply (game_loop_discards_stopped_time
           [(10, Scenario.tree_left); (500, Scenario.tree_and_coin)]
           (mkDriver Scenario.paused_engine 0)).
  left. reflexivity.
Defined.

(** * The lives line of the HUD *)

(** X20.  On a reachable engine the lives line shows one heart per life
    while the game goes on, that is one, two or three hearts, and nothing
    at all once the game is over, also when [lives] has gone below
    zero. *)
Theorem hud_lives_on_reachable (e : GameEngine) (heart : string) :
  reachable e ->
  (game_over (state e) = true -> hud_lives heart (state e) = ""%string) /\
  (game_over (state e) = false ->
   exists n : nat,
     (1 <= n <= 3)%nat /\ lives (state e) = Z.of_nat n /\
     hud_lives heart (state e) = str_times heart n).
Proof.
  intros R. destruct (reachable_state_inv e R) as [[L G] _].
  unfold hud_lives, str_mul. split.
  - intros O. apply G in O.
    replace (Z.to_nat (lives (state e))) with 0%nat by lia. reflexivity.
  - intros O.
    assert (P : (0 < lives (state e))%Z).
    { destruct (Z.lt_ge_cases 0 (lives (state e))) as [|N]; [assumption|].
      apply G in N. congruence. }
    exists (Z.to_nat (lives (state e))). repeat split; lia.
Qed.

Lemma hud_lives_on_reachable_witness :
  hud_lives "v" (state (run Scenario.into_the_trees Scenario.fresh))
    = ""%string /\
  hud_lives "v" (state (run Scenario.at_resolution Scenario.fresh))
    = "vv"%string.
Proof.
  split.
  - destruct (hud_lives_on_reachable
                (run Scenario.into_the_trees Scenario.fresh) "v") as [A _].
    + apply reachable_run; [apply reach_new|].
      unfold Scenario.into_the_trees. cbn [repeat app]. nonneg_ops.
    + apply A. vm_compute. reflexivity.
  - vm_compute. reflexivity.
Defined.

(** * Calls on reachable engines *)

(** * The overlap test *)

(** X22.  The overlap test is symmetric in its two rectangles; a
    rectangle of positive width and height overlaps itself; and two
    rectangles that only share an edge, side by side or one on top of
    the other, do not overlap. *)
Theorem rects_collide_symmetric (r1 r2 : Rect) :
  _rects_collide r1 r2 = _rects_collide r2 r1 /\
  (let '(x, y, w, h) := r1 in
   0 < w -> 0 < h -> _rects_collide r1 r1 = true) /\
  (let '(x1, y1, w1, h1) := r1 in
   let '(x2, y2, w2, h2) := r2 in
   x1 + w1 == x2 \/ y1 + h1 == y2 -> _rects_collide r1 r2 = false).
Proof.
  destruct r1 as [[[x1 y1] w1] h1]. destruct r2 as [[[x2 y2] w2] h2].
  split; [|split].
  - unfold _rects_collide.
    destruct (ltb x1 (x2 + w2)), (ltb x2 (x1 + w1)),
             (ltb y1 (y2 + h2)), (ltb y2 (y1 + h1)); reflexivity.
  - intros W H. unfold _rects_collide.
    assert (A : ltb x1 (x1 + w1) = true) by (apply ltb_lt; lra).
    assert (B : ltb y1 (y1 + h1) = true) by (apply ltb_lt; lra).
    now rewrite A, B.
  - intros H.
    apply (rects_collide_apart (x1, y1, w1, h1) (x2, y2, w2, h2)).
    destruct H as [H | H]; [left|right; right; left]; lra.
Qed.

(** X23.  On a reachable engine an obstacle in the player's lane overlaps
    the player's rectangle exactly while its y is strictly between
    [370 - h - j] and [430 - j], where [h] is the height of the rectangle
    (30 while sliding, 60 otherwise) and [j] the jump height while
    jumping, 0 otherwise: between 310 and 430 for a player who stands. *)
Theorem collision_window (e : GameEngine) (o : Obstacle) :
  reachable e -> In o (obstacles e) -> o_lane o = lane (player e) ->
  let h := if sliding (player e) then 30 else 60 in
  let j := if jumping (player e) then jump_height (player e) else 0 in
  _rects_collide (_get_player_rect e) (obstacle_rect o) = true <->
  370 - h - j < pos_y (o_position o) /\ pos_y (o_position o) < 430 - j.
Proof.
  intros R H E h j.
  destruct (reachable_more_inv e R) as [(PX & PY & _) _].
  destruct (reachable_storage_inv e R) as [O _].
  rewrite Forall_forall in O. destruct (O o H) as (OW & OH & _ & OX & _).
  rewrite E, PX in OX. injection OX as OX.
  rewrite get_player_rect_eq. unfold obstacle_rect.
  rewrite OW, OH, PY, OX. fold h j.
  change (floordiv2 OBSTACLE_WIDTH) with 25.
  change (floordiv2 OBSTACLE_HEIGHT) with 30.
  unfold _rects_collide, OBSTACLE_WIDTH, OBSTACLE_HEIGHT.
  rewrite !andb_true_iff, !ltb_lt.
  subst h. destruct (sliding (player e)); split; intros; repeat split; lra.
Qed.

Lemma collision_window_witness :
  Forall
    (fun o =>
       _rects_collide (_get_player_rect (run Scenario.approach Scenario.fresh))
                      (obstacle_rect o) = true <->
       310 < pos_y (o_position o) /\ pos_y (o_position o) < 430)
    (obstacles (run Scenario.approach Scenario.fresh)).
Proof.
  apply Forall_forall. intros o H.
  assert (R : reachable (run Scenario.approach Scenario.fresh)).
  { apply reachable_run; [apply reach_new|].
    unfold Scenario.approach. cbn [repeat]. nonneg_ops. }
  assert (L : o_lane o = 1%Z).
  { assert (E : map o_lane (obstacles (run Scenario.approach Scenario.fresh))
                = [1%Z]) by (vm_compute; reflexivity).
    apply (in_map o_lane) in H. rewrite E in H.
    destruct H as [H | []]. now symmetry. }
  pose proof (collision_window (run Scenario.approach Scenario.fresh) o R H L)
    as W.
  cbv zeta in W.
  assert (S : sliding (player (run Scenario.approach Scenario.fresh)) = false)
    by (vm_compute; reflexivity).
  assert (J : jumping (player (run Scenario.approach Scenario.fresh)) = false)
    by (vm_compute; reflexivity).
  rewrite S, J in W. rewrite W. split; intros [A B]; split; lra.
Defined.

Lemma rects_collide_symmetric_witness :
  _rects_collide (0, 0, 40, 60) (40, 10, 50, 60) = false /\
  _rects_collide (0, 0, 40, 60) (0, 0, 40, 60) = true.
Proof.
  destruct (rects_collide_symmetric (0, 0, 40, 60) (40, 10, 50, 60))
    as (_ & A & B).
  split.
  - apply B. left. reflexivity.
  - apply A; reflexivity.
Defined.

(** * Short frames, long frames and the lists *)

(** X8.  In a frame of a reachable, running engine with
    [0 <= delta_time <= 1/32] the part of the score that comes from time,
    [int(10 * delta_time * speed_multiplier)], is zero (the product is at
    most 30/32): the score grows by 50 for each coin collected in the
    frame and by nothing else. *)
Theorem short_frames_score_by_coins_only
        (e : GameEngine) (delta_time : Q) (rnd : Draws) :
  reachable e -> running e -> 0 <= delta_time -> delta_time <= 1 # 32 ->
  let e' := engine_after (update_game delta_time rnd e) in
  score (state e') =
    (score (state e)
     + 50 * (coins_collected (state e') - coins_collected (state e)))%Z.
Proof.
  intros R Run T D. cbv zeta.
  rewrite update_game_running by exact Run. cbn [engine_after].
  destruct (frame_board
              (spawned_obstacles rnd
                 (speed_multiplier (advance_score delta_time (state e))))
              (spawned_coins rnd) delta_time e) as (S & C & _).
  rewrite S, C.
  destruct (reachable_state_inv e R) as [_ I].
  destruct (speed_inv_bounds (state e) I) as [M1 M3].
  rewrite int_small; [lia| |].
  - apply Qmult_le_0_compat; [|lra].
    apply Qmult_le_0_compat; [discriminate|exact T].
  - assert (H : 0 <= (3 - speed_multiplier (state e)) * delta_time)
      by (apply Qmult_le_0_compat; lra).
    lra.
Qed.

Lemma short_frames_score_by_coins_only_witness :
  let e := run Scenario.approach Scenario.fresh in
  let e' := engine_after (update_game (1 # 60) Scenario.quiet e) in
  score (state e') =
    (score (state e)
     + 50 * (coins_collected (state e') - coins_collected (state e)))%Z.
Proof.
  apply (short_frames_score_by_coins_only
           (run Scenario.approach Scenario.fresh) (1 # 60) Scenario.quiet).
  - apply reachable_run; [apply reach_new|].
    unfold Scenario.approach. cbn [repeat]. nonneg_ops.
  - split; vm_compute; reflexivity.
  - discriminate.
  - discriminate.
Defined.

(** X9.  A frame of a reachable, running engine with
    [0 <= delta_time <= 1000] moves the distance forward by more than
    [100 * delta_time - 2] and by less than [300 * delta_time + 1]; the
    bounds are wider by one unit than the truncated product needs, which
    leaves room for the rounding of the source's floating point. *)
Theorem distance_of_a_frame
        (e : GameEngine) (delta_time : Q) (rnd : Draws) :
  reachable e -> running e -> 0 <= delta_time -> delta_time <= 1000 ->
  let e' := engine_after (update_game delta_time rnd e) in
  100 * delta_time - 2
    < inject_Z (distance (state e') - distance (state e)) /\
  inject_Z (distance (state e') - distance (state e))
    < 300 * delta_time + 1.
Proof.
  intros R Run T B. cbv zeta.
  rewrite update_game_running by exact Run. cbn [engine_after].
  destruct (frame_board
              (spawned_obstacles rnd
                 (speed_multiplier (advance_score delta_time (state e))))
              (spawned_coins rnd) delta_time e) as (_ & _ & _ & D & _).
  rewrite D.
  replace (distance (state e)
           + int (100 * delta_time * speed_multiplier (state e))
           - distance (state e))%Z
    with (int (100 * delta_time * speed_multiplier (state e))) by lia.
  destruct (reachable_state_inv e R) as [_ I].
  destruct (speed_inv_bounds (state e) I) as [M1 M3].
  assert (P : 0 <= 100 * delta_time * speed_multiplier (state e)).
  { apply Qmult_le_0_compat; [|lra].
    apply Qmult_le_0_compat; [discriminate|exact T]. }
  destruct (int_bounds _ P) as [B1 B2].
  assert (H1 : 0 <= (speed_multiplier (state e) - 1) * delta_time)
    by (apply Qmult_le_0_compat; lra).
  assert (H3 : 0 <= (3 - speed_multiplier (state e)) * delta_time)
    by (apply Qmult_le_0_compat; lra).
  split; lra.
Qed.

Lemma distance_of_a_frame_witness :
  let e' := engine_after (update_game 2 Scenario.quiet Scenario.fresh) in
  100 * 2 - 2
    < inject_Z (distance (state e') - distance (state Scenario.fresh)) /\
  inject_Z (distance (state e') - distance (state Scenario.fresh))
    < 300 * 2 + 1.
Proof.
  apply (distance_of_a_frame Scenario.fresh 2 Scenario.quiet).
  - apply reach_new.
  - split; reflexivity.
  - discriminate.
  - discriminate.
Defined.

(** X12.  However a call of [update_game] ends, the engine's lists hold
    at most one obstacle and at most one coin more than before the call,
    on any engine and for any [delta_time]. *)
Theorem one_spawn_per_frame
        (e : GameEngine) (delta_time : Q) (rnd : Draws) :
  let e' := engine_after (update_game delta_time rnd e) in
  (length (obstacles e') <= length (obstacles e) + 1)%nat /\
  (length (coins e') <= length (coins e) + 1)%nat.
Proof.
  cbv zeta.
  destruct (paused (state e)) eqn:P; [|destruct (game_over (state e)) eqn:G].
  - rewrite update_game_stopped by now left. cbn [engine_after]. split; lia.
  - rewrite update_game_stopped by now right. cbn [engine_after]. split; lia.
  - rewrite update_game_running by now split. cbn [engine_after].
    rewrite frame_obstacles, frame_coins. split.
    + eapply Nat.le_trans; [apply filter_length_le|].
      rewrite !length_map, length_app. apply Nat.add_le_mono_l.
      unfold spawned_obstacles. destruct (ltb _ _); cbn [length]; lia.
    + eapply Nat.le_trans; [apply filter_length_le|].
      rewrite !length_map, length_app. apply Nat.add_le_mono_l.
      unfold spawned_coins. destruct (ltb _ _); cbn [length]; lia.
Qed.

(** X21.  On a reachable engine [move_player] never raises, whatever the
    direction string: the index into [LANE_POSITIONS] is always in range,
    and the player is in lane 0, 1 or 2 afterwards. *)
Theorem move_player_never_raises (e : GameEngine) (direction : string) :
  reachable e ->
  exists e',
    move_player direction e = Returns e' /\ (0 <= lane (player e') <= 2)%Z.
Proof.
  intros R. exact (move_player_returns direction e (reachable_lane_inv e R)).
Qed.

Lemma move_player_never_raises_witness :
  exists e',
    move_player "left" Scenario.jumper = Returns e' /\
    (0 <= lane (player e') <= 2)%Z.
Proof.
  apply (move_player_never_raises Scenario.jumper "left").
  apply reachable_run; [apply reach_new|]. nonneg_ops.
Defined.

(** * What the cleanup keeps and what it drops *)

Section Kept.

Variables (os : list Obstacle) (cs : list Coin) (delta_time : Q).
Variable e : GameEngine.







End Kept.


